(** * countrywizard: relevance comparator, lookup store, location normalizer

    A shallow embedding of [countrywizard/base.py] and [countrywizard/api.py].

    Modelling conventions.
    - A Python [str] is the list of its code points.  What the [str]
      methods of the program read from the Unicode database of the
      interpreter (character predicates, case mappings) is a parameter, the
      class [Unicode]; the statements hold for every database, two of them
      for every database that is [case_stable].  The examples are ASCII
      text and run on the ASCII part of the database.
    - A record is the Python 3-tuple [(country, feature_class, population)],
      each field possibly [None].  Populations are the finite numbers the
      data sets carry ([Geonames.alter_data] replaces missing ones by [0.0]);
      only their order and their truth value are ever used, so they are
      modelled as integers.
    - The shelve file is a finite map from keys to records.
    - A Python exception is a value of [exn]; code that may raise returns
      [res].  Code that writes to the shelve before raising returns the
      store together with its outcome.
    - The order in which a Python set is iterated is a parameter, the class
      [SetOrder].
    - The workers of [build] share the shelve and interleave; what each
      worker ends with is a datum of the run, and the store a build leaves
      is not modelled. *)

From Stdlib Require Import ZArith NArith List Lia Bool Permutation.
From Stdlib.Strings Require Import Byte.
From stdpp Require Import base option list gmap.

Local Open Scope Z_scope.

(** ** Strings *)

(** A code point, and a [str]. *)
Abbreviation char := N.
Abbreviation str := (list N).

(** String literals: ["ab"] is the list of the code points of its
    (ASCII) characters. *)
Inductive str_literal : Set :=
| literal_nil
| literal_cons (c : N) (s : str_literal).

Fixpoint str_of_bytes (bytes : list byte) : str_literal :=
  match bytes with
  | [] => literal_nil
  | b :: bytes => literal_cons (Byte.to_N b) (str_of_bytes bytes)
  end.

Fixpoint bytes_of_str (s : str_literal) : option (list byte) :=
  match s with
  | literal_nil => Some []
  | literal_cons c s =>
      match Byte.of_N c, bytes_of_str s with
      | Some b, Some bytes => Some (b :: bytes)
      | _, _ => None
      end
  end.

Declare Scope str_scope.
Delimit Scope str_scope with str.
#[warnings="-via-type-mismatch,-via-type-remapping"]
String Notation list str_of_bytes bytes_of_str
  (via str_literal mapping [[nil] => literal_nil, [cons] => literal_cons])
  : str_scope.
Local Open Scope str_scope.

(** ** Exceptions and fallible results *)

Inductive exn : Type :=
| KeyError (key : option str)
| ValueError (msg : str)
| TypeError
| AttributeError
| CancelledError.

Inductive res (A : Type) : Type :=
| Ok (a : A)
| Raise (e : exn).
Arguments Ok {A} a.
Arguments Raise {A} e.

(** Sequencing: the first exception raised ends the computation.  With
    these instances [x ← m; k] is the bind of [res]. *)
#[global] Instance res_ret : MRet res := fun A a => Ok a.
#[global] Instance res_bind : MBind res := fun A B k m =>
  match m with
  | Ok a => k a
  | Raise e => Raise e
  end.

(** ** The Unicode database

    What the program's [str] methods read from the database: the
    predicates behind [isspace] (also [strip] and [split]), [isalnum] and
    [isupper], and the full case mappings.  [str.upper] maps each code
    point on its own; [str.lower] does too, but looks at the neighbours of
    the code point (the final sigma), so [char_lower] is given the text
    before and after it.  Two facts of the database are used throughout:
    the space is whitespace, and no code point is upper-cased to the empty
    string. *)
Class Unicode : Type := {
  char_isspace : char → bool;
  char_isalnum : char → bool;
  char_islower : char → bool;
  char_istitle : char → bool;
  char_isupper : char → bool;
  char_lower : str → char → str → str;
  char_upper : char → str;
  char_isspace_space : char_isspace 32%N = true;
  char_upper_nonempty : ∀ c, char_upper c ≠ []
}.

(** A fixed code point: [str.upper] maps it to itself, and so does
    [str.lower] wherever it stands. *)
Definition case_fixed `{Unicode} (d : char) : Prop :=
  char_upper d = [d] ∧ ∀ before after, char_lower before d after = [d].

(** Case mapping is stable on what [str.lower] leaves without a lower
    case: a code point that [str.lower] puts out and that is upper-case,
    or is neither lower-case nor title-case, is fixed.  The database of
    CPython has this property. *)
Definition case_stable `{Unicode} : Prop :=
  ∀ before c after d,
    d ∈ char_lower before c after →
    char_isupper d = true ∨ char_islower d || char_istitle d = false →
    case_fixed d.

Definition between (lo hi : N) (c : char) : bool :=
  ((lo <=? c) && (c <=? hi))%N.

(** The ASCII part of the database; the code points above it are left
    alone. *)
#[global] Instance ASCII : Unicode | 100 := {|
  char_isspace c := between 9 13 c || between 28 32 c;
  char_isalnum c := between 65 90 c || between 97 122 c || between 48 57 c;
  char_islower c := between 97 122 c;
  char_istitle c := false;
  char_isupper c := between 65 90 c;
  char_lower before c after := [if between 65 90 c then (c + 32)%N else c];
  char_upper c := [if between 97 122 c then (c - 32)%N else c];
  char_isspace_space := eq_refl;
  char_upper_nonempty := ltac:(discriminate)
|}.

(** The ASCII part together with the double-struck capital C (U+2102),
    a letter that is upper-case and has no lower case: [str.lower] leaves
    it upper-case. *)
Definition Letterlike : Unicode := {|
  char_isspace := @char_isspace ASCII;
  char_isalnum c := (c =? 8450)%N || @char_isalnum ASCII c;
  char_islower := @char_islower ASCII;
  char_istitle := @char_istitle ASCII;
  char_isupper c := (c =? 8450)%N || @char_isupper ASCII c;
  char_lower := @char_lower ASCII;
  char_upper := @char_upper ASCII;
  char_isspace_space := eq_refl;
  char_upper_nonempty := @char_upper_nonempty ASCII
|}.

(** ** Python [str] operations *)

Module PyStr.

(** Truth value of a string: non-empty. *)
Definition truthy (s : str) : bool :=
  match s with [] => false | _ => true end.

(** [sep.join(words)] *)
Fixpoint join (sep : str) (words : list str) : str :=
  match words with
  | [] => []
  | w :: words =>
      match words with
      | [] => w
      | _ => w ++ sep ++ join sep words
      end
  end.

(** [s.startswith(prefix)] *)
Fixpoint startswith (s prefix : str) : bool :=
  match prefix, s with
  | [], _ => true
  | p :: prefix, c :: s => (c =? p)%N && startswith s prefix
  | _ :: _, [] => false
  end.

(** [s.split(sep)] for a non-empty [sep]: cut at the successive
    non-overlapping occurrences of [sep], left to right.  [skip] counts
    the characters of an occurrence still to be passed over. *)
Fixpoint split_go (sep s cur : str) (skip : nat) : list str :=
  match s with
  | [] => [cur]
  | c :: s' =>
      match skip with
      | S k => split_go sep s' cur k
      | O =>
          if startswith s sep
          then cur :: split_go sep s' [] (Nat.pred (length sep))
          else split_go sep s' (cur ++ [c]) O
      end
  end.

(** [s.split(sep)]; an empty separator raises [ValueError]. *)
Definition split (s sep : str) : res (list str) :=
  match sep with
  | [] => Raise (ValueError "empty separator")
  | _ => Ok (split_go sep s [] O)
  end.

Section methods.
Context {U : Unicode}.

(** [s.upper()] *)
Definition upper (s : str) : str := concat (map char_upper s).

(** [s.lower()]; [before] is the text already passed. *)
Fixpoint lower_go (before s : str) : str :=
  match s with
  | [] => []
  | c :: after => char_lower before c after ++ lower_go (before ++ [c]) after
  end.
Definition lower (s : str) : str := lower_go [] s.

(** [s.isupper()]: no lower-case or title-case character and at least one
    upper-case one; a single character is only asked whether it is
    upper-case. *)
Definition isupper (s : str) : bool :=
  match s with
  | [c] => char_isupper c
  | _ =>
      negb (existsb (fun c => char_islower c || char_istitle c) s)
      && existsb char_isupper s
  end.

Fixpoint lstrip (s : str) : str :=
  match s with
  | [] => []
  | c :: s' => if char_isspace c then lstrip s' else s
  end.

Fixpoint rstrip (s : str) : str :=
  match s with
  | [] => []
  | c :: s' =>
      match rstrip s' with
      | [] => if char_isspace c then [] else [c]
      | t => c :: t
      end
  end.

(** [s.strip()] *)
Definition strip (s : str) : str := rstrip (lstrip s).

(** [s.split()]: the maximal runs of non-space characters.  [cur] is the
    run being read, if any. *)
Fixpoint split_ws_go (s : str) (cur : option str) : list str :=
  match s with
  | [] => match cur with Some w => [w] | None => [] end
  | c :: s' =>
      if char_isspace c then
        match cur with
        | Some w => w :: split_ws_go s' None
        | None => split_ws_go s' None
        end
      else
        split_ws_go s' (Some (match cur with
                              | Some w => w ++ [c]
                              | None => [c]
                              end))
  end.
Definition split_ws (s : str) : list str := split_ws_go s None.

(** [" ".join(s.strip().split())] *)
Definition collapse (s : str) : str := join " " (split_ws (strip s)).

End methods.

End PyStr.

(** ** Records and the feature-class hierarchy ([base.py]) *)

Definition RecordT : Type := option str * option str * option Z.

Definition country (r : RecordT) : option str := r.1.1.
Definition feature_class (r : RecordT) : option str := r.1.2.
Definition population (r : RecordT) : option Z := r.2.

Definition NOT_FOUND : RecordT := (None, None, None).

Module FeatureClass.
Definition C : str := "C".
Definition A : str := "A".
Definition P : str := "P".
Definition T : str := "T".
Definition R : str := "R".
Definition H : str := "H".
Definition S : str := "S".
Definition L : str := "L".
Definition V : str := "V".
Definition U : str := "U".

Definition RELEVANCE_HIERARCHY : gmap str Z :=
  list_to_map
    [(C, 0); (A, 1); (P, 1); (T, 2); (R, 3);
     (H, 4); (S, 5); (L, 6); (V, 7); (U, 8)].
End FeatureClass.

(** [hierarchy[feature_class]]: a missing key, [None] included, raises
    [KeyError]. *)
Definition hierarchy_get (hierarchy : gmap str Z) (fc : option str) : res Z :=
  match fc with
  | Some c =>
      match hierarchy !! c with
      | Some n => Ok n
      | None => Raise (KeyError fc)
      end
  | None => Raise (KeyError None)
  end.

(** [record[2] or 0] *)
Definition population_or_0 (r : RecordT) : Z :=
  match population r with
  | Some p => p
  | None => 0
  end.

(** [max(x, y, key=key)] and [min(x, y, key=key)] on two operands: the
    second operand is returned only when its key is strictly better. *)
Definition py_max2 {A} (key : A → Z) (x y : A) : A :=
  if key x <? key y then y else x.

Definition py_min2 {A} (key : A → res Z) (x y : A) : res A :=
  kx ← key x;
  ky ← key y;
  Ok (if ky <? kx then y else x).

(** [relevance_choice].  The function only reads its operands and hands one
    of them back, so it is written over any carrier [A] of tuple objects
    with their value [tup]; [A := RecordT] gives the function on values. *)
Definition relevance_choice_on {A} (tup : A → RecordT)
    (hierarchy : gmap str Z) (record_1 record_2 : A) : res A :=
  let feature_class_1 := feature_class (tup record_1) in
  let feature_class_2 := feature_class (tup record_2) in
  if bool_decide (tup record_2 = NOT_FOUND) then Ok record_1
  else if bool_decide (tup record_1 = NOT_FOUND) then Ok record_2
  else
    h1 ← hierarchy_get hierarchy feature_class_1;
    h2 ← hierarchy_get hierarchy feature_class_2;
    if h1 =? h2
    then Ok (py_max2 (fun record => population_or_0 (tup record)) record_1 record_2)
    else py_min2 (fun record => hierarchy_get hierarchy (feature_class (tup record)))
                 record_1 record_2.

Definition relevance_choice_in (hierarchy : gmap str Z)
    (record_1 record_2 : RecordT) : res RecordT :=
  relevance_choice_on id hierarchy record_1 record_2.

(** The call with the default hierarchy. *)
Definition relevance_choice : RecordT → RecordT → res RecordT :=
  relevance_choice_in FeatureClass.RELEVANCE_HIERARCHY.

(** ** The lookup store ([GeoNameBase]) *)

(** The shelve file. *)
Abbreviation Shelf := (gmap str RecordT).

(** [db.get(key, default)] *)
Definition db_get (db : Shelf) (key : str) (default : RecordT) : RecordT :=
  match db !! key with
  | Some record => record
  | None => default
  end.

Module GeoNameBase.

Definition MISSING : RecordT := (None, None, None).

Section search.
Context {U : Unicode}.

(** The key [search] looks up: [" ".join(geoname.strip().lower().split())]. *)
Definition search_key (geoname : str) : str :=
  PyStr.join " " (PyStr.split_ws (PyStr.lower (PyStr.strip geoname))).

(** The alpha-2 code [search] elevates, if any: the stored country when
    it is a 2-character string, else the key itself when it has 2
    characters and the input was upper-case. *)
Definition search_alpha2 (geoname key : str) (country : option str)
  : option str :=
  let from_key :=
    if (length key =? 2)%nat && PyStr.isupper geoname
    then Some (PyStr.upper key) else None in
  match country with
  | Some c => if (length c =? 2)%nat then Some (PyStr.upper c) else from_key
  | None => from_key
  end.

Definition search (db : Shelf) (geoname : str) : RecordT :=
  let key := search_key geoname in
  let '(country, feature_class, population) := db_get db key MISSING in
  let alpha2 := search_alpha2 geoname key country in
  let country :=
    match alpha2 with
    | Some a =>
        if PyStr.truthy a
        then
          let '(country, _, _) := db_get db a (country, None, None) in country
        else country
    | None => country
    end in
  (country, feature_class, population).

End search.

End GeoNameBase.

(** ** Source datasets ([SourceDataset] and its subclasses)

    A data frame is the list of its rows; a field read as NaN is [None].
    A source read with a chunk size yields its frames one by one. *)

Inductive Payload (Row : Type) : Type :=
| Frame (rows : list Row)
| Chunks (chunks : list (list Row)).
Arguments Frame {Row} rows.
Arguments Chunks {Row} chunks.

(** What a subclass of [SourceDataset] overrides. *)
Class SourceDatasetClass (Row : Type) : Type := {
  alter_data : list Row → list Row;
  push_data : list Row → Shelf → Shelf * res unit
}.

(** [for row in rows: body], where [body] may raise after writing. *)
Fixpoint for_rows {Row} (body : Row → Shelf → Shelf * res unit)
    (rows : list Row) (db : Shelf) : Shelf * res unit :=
  match rows with
  | [] => (db, Ok ())
  | row :: rows =>
      match body row db with
      | (db, Ok _) => for_rows body rows db
      | (db, Raise e) => (db, Raise e)
      end
  end.

(** A tuple object: its identity and its value.  [x is y] compares
    identities. *)
Record TupleObj : Type := { oid : nat; tup : RecordT }.

Definition py_is (x y : TupleObj) : bool := (oid x =? oid y)%nat.

(** The order in which a Python set is iterated: an arrangement of its
    distinct elements, fixed by the elements inserted. *)
Class SetOrder : Type := {
  set_iter : list (option str) → list (option str);
  set_iter_perm : ∀ elements, set_iter elements ≡ₚ remove_dups elements
}.

(** The order of insertion, for the examples. *)
#[global] Instance insertion_order : SetOrder | 100 := {|
  set_iter := remove_dups;
  set_iter_perm := fun elements => reflexivity (remove_dups elements)
|}.

Module Geonames.

Record Row : Type := {
  name : option str;
  asciiname : option str;
  alternatenames : option str;
  feature_class : option str;
  country_code : option str;
  population : option Z
}.

Definition feature_classes_criteria : list str := ["A"; "P"; "R"; "T"].

Definition isin (fc : option str) (criteria : list str) : bool :=
  match fc with
  | Some c => bool_decide (c ∈ criteria)
  | None => false
  end.

Definition fillna (row : Row) : Row :=
  {| name := name row;
     asciiname := Some (default "" (asciiname row));
     alternatenames := Some (default "" (alternatenames row));
     feature_class := feature_class row;
     country_code := country_code row;
     population := Some (default 0 (population row)) |}.

Definition alter_data (data : list Row) : list Row :=
  let data := filter (fun row => isin (feature_class row) feature_classes_criteria) data in
  let data := map fillna data in
  filter (fun row => is_Some (country_code row)) data.

(** The body of the inner loop: write [new_record] under [name] unless a
    more relevant record is there.  [db[name]] unpickles a fresh tuple,
    an object other than [new_record]. *)
Definition store (name : str) (new_record : TupleObj) (db : Shelf)
  : Shelf * res unit :=
  match db !! name with
  | Some old =>
      let old_record := {| oid := S (oid new_record); tup := old |} in
      match relevance_choice_on tup FeatureClass.RELEVANCE_HIERARCHY
              old_record new_record with
      | Ok chosen =>
          if py_is chosen new_record
          then (<[name := tup new_record]> db, Ok ())
          else (db, Ok ())
      | Raise e => (db, Raise e)
      end
  | None => (<[name := tup new_record]> db, Ok ())
  end.

Section push.
Context {U : Unicode} {O : SetOrder}.

(** The names of a row, in the order the loop visits them: the set
    [{row.name, row.asciiname, *row.alternatenames.split(",")}]. *)
Definition names (row : Row) : res (list (option str)) :=
  match alternatenames row with
  | Some alt =>
      alts ← PyStr.split alt ",";
      Ok (set_iter (name row :: asciiname row :: map Some alts))
  | None => Raise AttributeError
  end.

(** [str.lower] applied to a NaN raises [TypeError]; empty names are
    filtered out. *)
Definition push_name (new_record : TupleObj) (n : option str) (db : Shelf)
  : Shelf * res unit :=
  match n with
  | Some s =>
      let name := PyStr.strip (PyStr.lower s) in
      if PyStr.truthy name then store name new_record db else (db, Ok ())
  | None => (db, Raise TypeError)
  end.

Definition push_row (row : Row) (db : Shelf) : Shelf * res unit :=
  match names row with
  | Ok names =>
      let new_record :=
        {| oid := 0; tup := (country_code row, feature_class row, population row) |} in
      for_rows (push_name new_record) names db
  | Raise e => (db, Raise e)
  end.

Definition push_data (data : list Row) (db : Shelf) : Shelf * res unit :=
  for_rows push_row data db.

End push.

End Geonames.

#[global] Instance Geonames_class {U : Unicode} {O : SetOrder}
  : SourceDatasetClass Geonames.Row :=
  {| alter_data := Geonames.alter_data; push_data := Geonames.push_data |}.

Module CountryAliases.

Record Row : Type := { iso3 : option str; Alias : option str }.

Definition alter_data (data : list Row) : list Row :=
  filter (fun row => is_Some (iso3 row)) data.

Section push.
Context {U : Unicode}.

(** [row.Alias.lower()] on a NaN raises [AttributeError]. *)
Definition push_row (row : Row) (db : Shelf) : Shelf * res unit :=
  match Alias row with
  | Some alias =>
      (<[PyStr.lower alias := (iso3 row, Some FeatureClass.C, None)]> db, Ok ())
  | None => (db, Raise AttributeError)
  end.

Definition push_data (data : list Row) (db : Shelf) : Shelf * res unit :=
  for_rows push_row data db.

End push.

End CountryAliases.

#[global] Instance CountryAliases_class {U : Unicode}
  : SourceDatasetClass CountryAliases.Row :=
  {| alter_data := CountryAliases.alter_data; push_data := CountryAliases.push_data |}.

Module CountryCodes.

Record Row : Type := { alpha2 : option str; alpha3 : option str }.

Definition alter_data (data : list Row) : list Row :=
  filter (fun row => is_Some (alpha2 row)) data.

Section push.
Context {U : Unicode}.

Definition push_row (row : Row) (db : Shelf) : Shelf * res unit :=
  match alpha2 row with
  | Some a2 =>
      (<[PyStr.upper a2 := (alpha3 row, Some FeatureClass.C, None)]> db, Ok ())
  | None => (db, Raise AttributeError)
  end.

Definition push_data (data : list Row) (db : Shelf) : Shelf * res unit :=
  for_rows push_row data db.

End push.

End CountryCodes.

#[global] Instance CountryCodes_class {U : Unicode}
  : SourceDatasetClass CountryCodes.Row :=
  {| alter_data := CountryCodes.alter_data; push_data := CountryCodes.push_data |}.

(** [SourceDataset.push], the first push of a source: a whole frame is
    altered when it is read; chunks are altered and pushed one at a time.
    A source read whole keeps its altered frame, so every later push of it
    is this function again; a later push of a source read in chunks is
    not. *)
Definition push_payload {Row} `{SourceDatasetClass Row}
    (data : Payload Row) (db : Shelf) : Shelf * res unit :=
  match data with
  | Frame rows => push_data (alter_data rows) db
  | Chunks chunks => for_rows (fun chunk => push_data (alter_data chunk)) chunks db
  end.

Inductive SourceDataset : Type :=
| Source {Row : Type} `{SourceDatasetClass Row} (data : Payload Row).

Definition push (source : SourceDataset) (db : Shelf) : Shelf * res unit :=
  match source with
  | Source data => push_payload data db
  end.

(** [source.iterates]: the source is read in chunks. *)
Definition iterates (source : SourceDataset) : bool :=
  match source with
  | Source (Chunks _) => true
  | Source (Frame _) => false
  end.

(** ** [GeoNameBase.build]

    [executor.map] submits one [push] per source to a pool of threads that
    share the shelve.  A future holds what its worker ended with, or
    nothing when the worker was cancelled before it started; the futures
    of a run, in the order of the sources, are a datum. *)
Abbreviation Future := (option (res unit)).




(** ** The location normalizer ([api.py]) *)

Definition CONTENT_SEPARATORS : list str := [","; "&"; "|"; "/"; " ("].
Definition NONALPHA_CHARS_ALLOWED : str := " -.".

(** A compiled pattern is used through [pat.match(word)] only: a blacklist
    is a sequence of match tests. *)
Definition _BlackListT : Type := list (str → bool).

Section normalizer.
Context {U : Unicode}.

Definition _char_ok (c : char) : bool :=
  bool_decide (c ∈ NONALPHA_CHARS_ALLOWED) || char_isalnum c.

Definition _transform_word_to_query (word : str) : str :=
  PyStr.lower (PyStr.strip (List.filter _char_ok word)).

(** One round of the [for word in ...] loop of [_normalize_location_impl],
    and the loop itself; [result] and [blacklist_hits] are the loop's two
    variables. *)
Fixpoint _normalize_location_words (db : Shelf) (blacklist : _BlackListT)
    (blacklist_tolerance : Z) (words : list str)
    (result : RecordT) (blacklist_hits : Z) : res (RecordT * Z) :=
  match words with
  | [] => Ok (result, blacklist_hits)
  | word :: words =>
      if blacklist_tolerance <? blacklist_hits then Ok (result, blacklist_hits)
      else
        let blacklist_hits :=
          blacklist_hits + (if existsb (fun pat => pat word) blacklist then 1 else 0) in
        let query_word := _transform_word_to_query word in
        if PyStr.truthy query_word then
          let found := GeoNameBase.search db query_word in
          result ← relevance_choice result found;
          _normalize_location_words db blacklist blacklist_tolerance words
            result blacklist_hits
        else
          _normalize_location_words db blacklist blacklist_tolerance words
            result blacklist_hits
  end.

Definition _normalize_location_impl (db : Shelf) (location : str)
    (blacklist : _BlackListT) (blacklist_tolerance : Z)
    (prev_result : RecordT) (sep : str) : res (RecordT * Z) :=
  words ← PyStr.split location sep;
  _normalize_location_words db blacklist blacklist_tolerance
    (map PyStr.strip words) prev_result 0.

(** The [for sep in CONTENT_SEPARATORS] loop of [_normalize_location]. *)
Fixpoint _normalize_location_seps (db : Shelf) (location : str)
    (blacklist : _BlackListT) (blacklist_tolerance : Z)
    (seps : list str) (result : RecordT) : res RecordT :=
  match seps with
  | [] => Ok result
  | sep :: seps =>
      '(normalized, blacklist_hits) ←
        _normalize_location_impl db location blacklist blacklist_tolerance result sep;
      if blacklist_tolerance <? blacklist_hits then Ok result
      else _normalize_location_seps db location blacklist blacklist_tolerance
             seps normalized
  end.

Definition _normalize_location (db : Shelf) (location : str)
    (blacklist : _BlackListT) (blacklist_tolerance : Z) : res RecordT :=
  let result := NOT_FOUND in
  let location := PyStr.join " " (PyStr.split_ws (PyStr.strip location)) in
  if PyStr.truthy location
  then _normalize_location_seps db location blacklist blacklist_tolerance
         CONTENT_SEPARATORS result
  else Ok result.

Definition normalize_location (db : Shelf) (location : str)
    (blacklist : _BlackListT) (blacklist_tolerance : Z) : res (option str) :=
  record ← _normalize_location db location blacklist blacklist_tolerance;
  Ok (country record).

End normalizer.

(** ** [get_blacklist] ([api.py])

    The blacklist file is its text, or is absent ([FileNotFoundError]).
    [re.compile] with [flags=re.I] is a parameter [compile], which gives a
    pattern or raises a pattern error. *)

Inductive blacklist_error (PatternError : Type) : Type :=
| SplitRaise (e : exn)
| CompileRaise (e : PatternError).
Arguments SplitRaise {PatternError} e.
Arguments CompileRaise {PatternError} e.

Section get_blacklist.
Context {Pattern PatternError : Type}.
Variable compile : str → PatternError + Pattern.

(** [tuple(map(functools.partial(re.compile, flags=re.I), pats))]: [pats]
    is a string, so the patterns are compiled from its characters, one
    by one. *)
Fixpoint compile_each (pats : str)
  : blacklist_error PatternError + list Pattern :=
  match pats with
  | [] => inr []
  | c :: pats =>
      match compile [c] with
      | inl e => inl (CompileRaise e)
      | inr pat =>
          match compile_each pats with
          | inl e => inl e
          | inr compiled => inr (pat :: compiled)
          end
      end
  end.

Definition get_blacklist (file : option str) (sep : str)
  : blacklist_error PatternError + list Pattern :=
  match file with
  | None => inr []
  | Some text =>
      match PyStr.split text sep with
      | Raise e => inl (SplitRaise e)
      | Ok parts => compile_each (PyStr.join "" parts)
      end
  end.

End get_blacklist.

(** ** Auxiliary notions used by the statements *)

Abbreviation RH := FeatureClass.RELEVANCE_HIERARCHY.

(** A record whose feature class has an entry in the hierarchy. *)
Definition ranked (hierarchy : gmap str Z) (r : RecordT) : Prop :=
  ∃ n, hierarchy_get hierarchy (feature_class r) = Ok n.

(** A store all of whose records are ranked in the default hierarchy. *)
Definition db_ranked (db : Shelf) : Prop :=
  ∀ key r, db !! key = Some r → ranked FeatureClass.RELEVANCE_HIERARCHY r.

(** Two records tie: equal rank and equal population, nulls counted as 0. *)
Definition tie (hierarchy : gmap str Z) (a b : RecordT) : Prop :=
  hierarchy_get hierarchy (feature_class a) = hierarchy_get hierarchy (feature_class b)
  ∧ population_or_0 a = population_or_0 b.

(** A record the normalizer may hold: the empty result or a ranked one. *)
Definition foldable (r : RecordT) : Prop :=
  r = NOT_FOUND ∨ ranked FeatureClass.RELEVANCE_HIERARCHY r.

(** [any(pat.match(word) for pat in blacklist)], and the number of
    blacklisted words of a list. *)
Definition blacklisted (blacklist : _BlackListT) (word : str) : bool :=
  existsb (fun pat => pat word) blacklist.
Arguments blacklisted : simpl never.

Fixpoint count_hits (blacklist : _BlackListT) (words : list str) : Z :=
  match words with
  | [] => 0
  | word :: words =>
      (if blacklisted blacklist word then 1 else 0) + count_hits blacklist words
  end.

(** The rank of a ranked record, and the order the comparator follows:
    [a] is at least as good as [b]. *)
Definition rank_of (r : RecordT) : Z :=
  match hierarchy_get RH (feature_class r) with
  | Ok n => n
  | Raise _ => 0
  end.

Definition at_least (a b : RecordT) : Prop :=
  rank_of a < rank_of b
  ∨ (rank_of a = rank_of b ∧ population_or_0 b ≤ population_or_0 a).

(** Folding [relevance_choice] over candidate records from the empty
    result, as the word loop of the normalizer does with the records it
    finds. *)
Definition fold_relevance (records : list RecordT) : res RecordT :=
  foldl (fun acc record => result ← acc; relevance_choice result record)
        (Ok NOT_FOUND) records.

(** [db'] holds, under every key of [db], a record at least as good. *)
Definition improves (db db' : Shelf) : Prop :=
  ∀ key e, db !! key = Some e → ∃ e', db' !! key = Some e' ∧ at_least e' e.

(** All the rows of a payload. *)
Definition payload_rows {Row} (data : Payload Row) : list Row :=
  match data with
  | Frame rows => rows
  | Chunks chunks => concat chunks
  end.

(** A place row as [Geonames.alter_data] leaves it: a ranked feature class
    and the two name fields filled. *)
Definition Geonames_altered (row : Geonames.Row) : Prop :=
  ranked RH (Geonames.country_code row, Geonames.feature_class row,
             Geonames.population row)
  ∧ is_Some (Geonames.asciiname row)
  ∧ is_Some (Geonames.alternatenames row).

(** [sep] occurs in [s]. *)
Fixpoint occurs (sep s : str) : bool :=
  PyStr.startswith s sep ||
  match s with
  | [] => false
  | _ :: s' => occurs sep s'
  end.

(** *** The normalizer as a list of tokenization strategies

    A strategy cuts the whitespace-collapsed location into tokens.  Every
    strategy is given the same whole location; the result kept so far
    seeds the next one, and a strategy that ends over the tolerance ends
    the search. *)
Definition Strategy : Type := str → res (list str).

Definition split_strategy (sep : str) : Strategy :=
  fun location => PyStr.split location sep.

(** "No separator": the whole string as one token. *)
Definition whole_string_strategy : Strategy :=
  fun location => Ok [location].

(** The strategies as the specification lists them: comma, ampersand,
    pipe, slash, [" ("], and finally no separator. *)
Definition specified_strategies : list Strategy :=
  map split_strategy [","; "&"; "|"; "/"; " ("] ++ [whole_string_strategy].

(** The five separator strategies alone. *)
Definition separator_strategies : list Strategy :=
  map split_strategy [","; "&"; "|"; "/"; " ("].

Section notions.
Context {U : Unicode} {O : SetOrder}.


(** A word of [str.split()]: non-empty and free of whitespace. *)
Definition is_word (w : str) : Prop :=
  w ≠ [] ∧ forallb (fun c => negb (char_isspace c)) w = true.

Fixpoint try_strategies (db : Shelf) (location : str) (blacklist : _BlackListT)
    (tolerance : Z) (strategies : list Strategy) (result : RecordT) : res RecordT :=
  match strategies with
  | [] => Ok result
  | strategy :: strategies =>
      words ← strategy location;
      '(normalized, hits) ←
        _normalize_location_words db blacklist tolerance
          (map PyStr.strip words) result 0;
      if tolerance <? hits then Ok result
      else try_strategies db location blacklist tolerance strategies normalized
  end.

Definition normalize_by (strategies : list Strategy) (db : Shelf) (location : str)
    (blacklist : _BlackListT) (tolerance : Z) : res RecordT :=
  let location := PyStr.collapse location in
  if PyStr.truthy location
  then try_strategies db location blacklist tolerance strategies NOT_FOUND
  else Ok NOT_FOUND.

(** The three dataset classes of [base.py]. *)
Inductive builtin : SourceDataset → Prop :=
| builtin_aliases data :
    builtin (@Source CountryAliases.Row CountryAliases_class data)
| builtin_codes data :
    builtin (@Source CountryCodes.Row CountryCodes_class data)
| builtin_geonames data :
    builtin (@Source Geonames.Row Geonames_class data).

End notions.

(** *** Examples of stores and sources (ASCII) *)

(** A store whose only key is a location stripped of its separators. *)
Definition unsplit_db : Shelf :=
  <["abcde f" := (Some "USA", Some "C", None)]> ∅.

(** A country-code source, and a country-alias source one of whose rows
    has no alias. *)
Definition codes_source : SourceDataset :=
  Source (Frame [{| CountryCodes.alpha2 := Some "US";
                    CountryCodes.alpha3 := Some "USA" |}]).

Definition malformed_aliases_source : SourceDataset :=
  Source (Frame [{| CountryAliases.iso3 := Some "USA";
                    CountryAliases.Alias := None |}]).

(** The sources of a small store: the place [springfield], the alias
    [america] and the code [US]. *)
Definition example_sources : list SourceDataset :=
  [Source (Frame [{| CountryAliases.iso3 := Some "USA";
                     CountryAliases.Alias := Some "America" |}]);
   Source (Frame [{| CountryCodes.alpha2 := Some "US";
                     CountryCodes.alpha3 := Some "USA" |}]);
   Source (Chunks [[{| Geonames.name := Some "Springfield";
                       Geonames.asciiname := Some "Springfield";
                       Geonames.alternatenames := None;
                       Geonames.feature_class := Some "P";
                       Geonames.country_code := Some "US";
                       Geonames.population := Some 5000 |}]])].

(** The store their pushes leave, and a blacklist with one pattern. *)
Definition example_db : Shelf :=
  <["springfield" := (Some "US", Some "P", Some 5000)]>
    (<["america" := (Some "USA", Some "C", None)]>
       (<["US" := (Some "USA", Some "C", None)]> ∅)).

Definition spam_blacklist : _BlackListT :=
  [fun word => bool_decide (PyStr.lower word = "spam")].
(** * Properties *)

(** ** The relevance comparator *)

Section relevance.
Context {A : Type} (tup : A → RecordT) (h : gmap str Z).

Lemma relevance_choice_on_not_found_r a b :
  tup b = NOT_FOUND → relevance_choice_on tup h a b = Ok a.
Proof. intros Hb. unfold relevance_choice_on. by rewrite bool_decide_eq_true_2. Qed.

Lemma relevance_choice_on_not_found_l a b :
  tup a = NOT_FOUND → tup b ≠ NOT_FOUND → relevance_choice_on tup h a b = Ok b.
Proof.
  intros Ha Hb. unfold relevance_choice_on.
  rewrite bool_decide_eq_false_2 by done. by rewrite bool_decide_eq_true_2.
Qed.

(** Between two ranked records the second wins exactly when it is
    strictly better: a smaller rank, or the same rank and a greater
    population. *)
Lemma relevance_choice_on_ranked a b ra rb :
  tup a ≠ NOT_FOUND → tup b ≠ NOT_FOUND →
  hierarchy_get h (feature_class (tup a)) = Ok ra →
  hierarchy_get h (feature_class (tup b)) = Ok rb →
  relevance_choice_on tup h a b =
    Ok (if (rb <? ra) || ((ra =? rb) && (population_or_0 (tup a) <? population_or_0 (tup b)))
        then b else a).
Proof.
  intros Ha Hb Hra Hrb. unfold relevance_choice_on.
  rewrite !bool_decide_eq_false_2 by done.
  rewrite Hra, Hrb. cbn.
  destruct (Z.eqb_spec ra rb) as [->|Hne].
  - rewrite Z.ltb_irrefl. cbn. reflexivity.
  - unfold py_min2. rewrite Hra, Hrb. cbn. by rewrite orb_false_r.
Qed.

Lemma relevance_choice_on_unranked_l a b e :
  tup a ≠ NOT_FOUND → tup b ≠ NOT_FOUND →
  hierarchy_get h (feature_class (tup a)) = Raise e →
  relevance_choice_on tup h a b = Raise e.
Proof.
  intros Ha Hb Hra. unfold relevance_choice_on.
  rewrite !bool_decide_eq_false_2 by done. by rewrite Hra.
Qed.

End relevance.

Lemma ranked_not_NOT_FOUND h r : ranked h r → r ≠ NOT_FOUND.
Proof. intros [n Hn] ->. discriminate Hn. Qed.

(** C1.  [relevance_choice(a, b)] returns [a] if [b] equals [NOT_FOUND] and
    [b] if [a] equals [NOT_FOUND] (the first operand itself when both do).
    Otherwise, with equal feature-class ranks it returns the record with
    the greater population, a null population counting as 0 and the first
    operand being kept on a tie; with different ranks it returns the record
    of smaller rank, whatever the populations.  Stated for tuple objects of
    any carrier; [tup := id] is the function on values. *)
Theorem relevance_choice_rules {A : Type} (tup : A → RecordT) (a b : A) :
  (tup b = NOT_FOUND → relevance_choice_on tup RH a b = Ok a) ∧
  (tup a = NOT_FOUND → tup b ≠ NOT_FOUND → relevance_choice_on tup RH a b = Ok b) ∧
  (∀ ra rb,
     tup a ≠ NOT_FOUND → tup b ≠ NOT_FOUND →
     hierarchy_get RH (feature_class (tup a)) = Ok ra →
     hierarchy_get RH (feature_class (tup b)) = Ok rb →
     (ra = rb → population_or_0 (tup a) < population_or_0 (tup b) →
        relevance_choice_on tup RH a b = Ok b) ∧
     (ra = rb → population_or_0 (tup b) ≤ population_or_0 (tup a) →
        relevance_choice_on tup RH a b = Ok a) ∧
     (ra < rb → relevance_choice_on tup RH a b = Ok a) ∧
     (rb < ra → relevance_choice_on tup RH a b = Ok b)).
Proof.
  split; [apply relevance_choice_on_not_found_r|].
  split; [apply relevance_choice_on_not_found_l|].
  intros ra rb Ha Hb Hra Hrb.
  rewrite (relevance_choice_on_ranked tup RH a b ra rb Ha Hb Hra Hrb).
  repeat split; intros.
  - subst rb. rewrite Z.ltb_irrefl, Z.eqb_refl. cbn.
    by rewrite (proj2 (Z.ltb_lt _ _)).
  - subst rb. rewrite Z.ltb_irrefl, Z.eqb_refl. cbn.
    by rewrite (proj2 (Z.ltb_ge _ _)).
  - rewrite (proj2 (Z.ltb_ge rb ra)) by lia.
    by rewrite (proj2 (Z.eqb_neq ra rb)) by lia.
  - by rewrite (proj2 (Z.ltb_lt rb ra)).
Qed.

Lemma relevance_choice_rules_witness :
  relevance_choice (Some "US", Some "P", Some 5000) (Some "USA", Some "C", None)
    = Ok (Some "USA", Some "C", None)
  ∧ relevance_choice (Some "US", Some "P", Some 5000) (Some "FR", Some "A", Some 5000)
    = Ok (Some "US", Some "P", Some 5000)
  ∧ relevance_choice NOT_FOUND (Some "FR", Some "A", None) = Ok (Some "FR", Some "A", None).
Proof.
  split; [|split].
  - destruct (relevance_choice_rules id (Some "US", Some "P", Some 5000)
                (Some "USA", Some "C", None)) as (_ & _ & H).
    destruct (H 1 0) as (_ & _ & _ & H4);
      [discriminate | discriminate | reflexivity | reflexivity |].
    apply H4. lia.
  - destruct (relevance_choice_rules id (Some "US", Some "P", Some 5000)
                (Some "FR", Some "A", Some 5000)) as (_ & _ & H).
    destruct (H 1 1) as (_ & H2 & _);
      [discriminate | discriminate | reflexivity | reflexivity |].
    apply H2; [reflexivity | cbn; lia].
  - destruct (relevance_choice_rules id NOT_FOUND (Some "FR", Some "A", None))
      as (_ & H & _).
    apply H; [reflexivity | discriminate].
Defined.

(** C8.  For two records, neither equal to [NOT_FOUND] and both ranked,
    [relevance_choice(A, B) == relevance_choice(B, A)] except in the
    population tie (equal ranks and equal populations, nulls as 0), where
    each call returns its own first operand. *)
Theorem relevance_choice_comm (a b : RecordT) :
  a ≠ NOT_FOUND → b ≠ NOT_FOUND → ranked RH a → ranked RH b →
  (¬ tie RH a b → relevance_choice a b = relevance_choice b a) ∧
  (tie RH a b → relevance_choice a b = Ok a ∧ relevance_choice b a = Ok b).
Proof.
  intros Ha Hb [ra Hra] [rb Hrb].
  unfold relevance_choice, relevance_choice_in, tie.
  rewrite (relevance_choice_on_ranked id RH a b ra rb Ha Hb Hra Hrb).
  rewrite (relevance_choice_on_ranked id RH b a rb ra Hb Ha Hrb Hra).
  rewrite Hra, Hrb. unfold id.
  split.
  - intros Hnt.
    destruct (Z.ltb_spec rb ra), (Z.ltb_spec ra rb), (Z.eqb_spec ra rb),
      (Z.eqb_spec rb ra),
      (Z.ltb_spec (population_or_0 a) (population_or_0 b)),
      (Z.ltb_spec (population_or_0 b) (population_or_0 a));
      cbn; try reflexivity; try lia.
    exfalso. apply Hnt. split; [congruence | lia].
  - intros [Hr Hp]. injection Hr as ->. rewrite Hp.
    by rewrite !Z.ltb_irrefl, !andb_false_r.
Qed.

Lemma relevance_choice_comm_witness :
  relevance_choice (Some "US", Some "P", Some 5000) (Some "FR", Some "A", Some 70)
    = relevance_choice (Some "FR", Some "A", Some 70) (Some "US", Some "P", Some 5000).
Proof.
  destruct (relevance_choice_comm (Some "US", Some "P", Some 5000)
              (Some "FR", Some "A", Some 70)) as [H _].
  - discriminate.
  - discriminate.
  - exists 1. reflexivity.
  - exists 1. reflexivity.
  - apply H. intros [_ Hp]. vm_compute in Hp. discriminate Hp.
Defined.

(** C10.  [relevance_choice(a, b)] (both ranked when neither equals
    [NOT_FOUND]) returns one of its two operands, the object itself; on
    two distinct objects the identity test [chosen is b] therefore tells
    which one was returned. *)
Theorem relevance_choice_is_operand (a b : TupleObj) :
  (tup a ≠ NOT_FOUND → tup b ≠ NOT_FOUND → ranked RH (tup a) ∧ ranked RH (tup b)) →
  ∃ chosen,
    relevance_choice_on tup RH a b = Ok chosen
    ∧ (chosen = a ∨ chosen = b)
    ∧ (oid a ≠ oid b →
       (py_is chosen b = true ↔ chosen = b) ∧ (py_is chosen b = false ↔ chosen = a)).
Proof.
  intros Hranked.
  assert (∃ chosen, relevance_choice_on tup RH a b = Ok chosen
                    ∧ (chosen = a ∨ chosen = b)) as (chosen & Hc & Hor).
  { destruct (decide (tup b = NOT_FOUND)) as [Hb|Hb].
    { exists a. split; [by apply relevance_choice_on_not_found_r | by left]. }
    destruct (decide (tup a = NOT_FOUND)) as [Ha|Ha].
    { exists b. split; [by apply relevance_choice_on_not_found_l | by right]. }
    destruct (Hranked Ha Hb) as [[ra Hra] [rb Hrb]].
    rewrite (relevance_choice_on_ranked tup RH a b ra rb Ha Hb Hra Hrb).
    destruct (_ || _); eauto. }
  exists chosen. split; [done|]. split; [done|].
  intros Hne. unfold py_is.
  destruct Hor as [->| ->].
  - rewrite (proj2 (Nat.eqb_neq _ _)) by done.
    split; split; try done. intros ->. done.
  - rewrite Nat.eqb_refl.
    split; split; try done. intros ->. done.
Qed.

Lemma relevance_choice_is_operand_witness :
  ∃ chosen,
    relevance_choice_on tup RH
      {| oid := 1; tup := (Some "US", Some "P", Some 5000) |}
      {| oid := 0; tup := (Some "US", Some "P", Some 5000) |} = Ok chosen
    ∧ py_is chosen {| oid := 0; tup := (Some "US", Some "P", Some 5000) |} = false.
Proof.
  destruct (relevance_choice_is_operand
              {| oid := 1; tup := (Some "US", Some "P", Some 5000) |}
              {| oid := 0; tup := (Some "US", Some "P", Some 5000) |})
    as (chosen & Hc & Hor & Hid).
  - intros _ _. split; exists 1; reflexivity.
  - exists chosen. split; [exact Hc|].
    vm_compute in Hc. injection Hc as <-. reflexivity.
Defined.

(** *** Folding the comparator *)

Lemma ranked_rank_of r : ranked RH r → hierarchy_get RH (feature_class r) = Ok (rank_of r).
Proof. intros [n Hn]. unfold rank_of. by rewrite Hn. Qed.

Lemma at_least_refl a : at_least a a.
Proof. right. split; [done | lia]. Qed.

Lemma at_least_trans a b c : at_least a b → at_least b c → at_least a c.
Proof. unfold at_least. lia. Qed.

Lemma at_least_antisym a b :
  ranked RH a → ranked RH b → at_least a b → at_least b a → tie RH a b.
Proof.
  intros Ha Hb Hab Hba. unfold tie.
  rewrite (ranked_rank_of a Ha), (ranked_rank_of b Hb).
  unfold at_least in *. split; [f_equal; lia | lia].
Qed.

Lemma relevance_choice_ranked a b :
  ranked RH a → ranked RH b →
  ∃ r, relevance_choice a b = Ok r ∧ (r = a ∨ r = b) ∧ at_least r a ∧ at_least r b.
Proof.
  intros Ha Hb. unfold relevance_choice, relevance_choice_in.
  rewrite (relevance_choice_on_ranked id RH a b (rank_of a) (rank_of b));
    [| by apply ranked_not_NOT_FOUND with RH | by apply ranked_not_NOT_FOUND with RH
     | by apply ranked_rank_of | by apply ranked_rank_of ].
  unfold id, at_least.
  destruct (Z.ltb_spec (rank_of b) (rank_of a)),
    (Z.eqb_spec (rank_of a) (rank_of b)),
    (Z.ltb_spec (population_or_0 a) (population_or_0 b)); cbn;
    eexists; (split; [reflexivity|]); (split; [eauto|]); lia.
Qed.

(** From a ranked seed the fold returns a best record among the seed and
    the candidates. *)
Lemma fold_from_ranked (l : list RecordT) (acc : RecordT) :
  ranked RH acc → Forall (ranked RH) l →
  ∃ r, foldl (fun acc record => result ← acc; relevance_choice result record)
             (Ok acc) l = Ok r
       ∧ r ∈ acc :: l ∧ ∀ x, x ∈ acc :: l → at_least r x.
Proof.
  revert acc. induction l as [|x l IH]; intros acc Hacc Hl.
  - exists acc. cbn. split; [done|]. split; [apply list_elem_of_here|].
    intros y Hy. apply list_elem_of_singleton in Hy as ->. apply at_least_refl.
  - apply Forall_cons in Hl as [Hx Hl]. cbn.
    destruct (relevance_choice_ranked acc x Hacc Hx) as (m & Hm & Hor & Hma & Hmx).
    rewrite Hm.
    destruct (IH m) as (r & Hr & Hin & Hbest); [by destruct Hor as [->| ->] | done |].
    exists r. split; [done|]. split.
    + apply elem_of_cons in Hin as [->|Hin].
      * destruct Hor as [->| ->]; [apply list_elem_of_here|].
        apply list_elem_of_further, list_elem_of_here.
      * by do 2 apply list_elem_of_further.
    + intros y Hy.
      assert (at_least r m) by (apply Hbest, list_elem_of_here).
      apply elem_of_cons in Hy as [->|Hy]; [by eapply at_least_trans|].
      apply elem_of_cons in Hy as [->|Hy]; [by eapply at_least_trans|].
      by apply Hbest, list_elem_of_further.
Qed.

(** The fold over ranked candidates returns [NOT_FOUND] for no candidate
    and otherwise a best candidate. *)
Lemma fold_relevance_best (l : list RecordT) :
  Forall (ranked RH) l →
  ∃ r, fold_relevance l = Ok r
       ∧ (l = [] → r = NOT_FOUND)
       ∧ (l ≠ [] → r ∈ l)
       ∧ ∀ x, x ∈ l → at_least r x.
Proof.
  intros Hl. unfold fold_relevance. destruct l as [|x l].
  - exists NOT_FOUND. cbn. repeat split; try done. intros x Hx. by apply elem_of_nil in Hx.
  - apply Forall_cons in Hl as [Hx Hl]. cbn.
    replace (relevance_choice NOT_FOUND x) with (Ok x).
    2:{ symmetry. apply relevance_choice_on_not_found_l;
          [done | by apply ranked_not_NOT_FOUND with RH]. }
    destruct (fold_from_ranked l x Hx Hl) as (r & Hr & Hin & Hbest).
    exists r. repeat split; try done.
Qed.

(** C9, refuted as stated: two distinct ranked records that tie are each
    the result of the fold that meets them first. *)
Lemma fold_relevance_order_dependent :
  ¬ (∀ l l' : list RecordT,
       NoDup l → Forall (ranked RH) l → Permutation l l' →
       fold_relevance l = fold_relevance l').
Proof.
  intros H.
  specialize (H [(Some "US", Some "P", Some 0); (Some "CA", Some "P", Some 0)]
                [(Some "CA", Some "P", Some 0); (Some "US", Some "P", Some 0)]).
  assert (fold_relevance [(Some "US", Some "P", Some 0); (Some "CA", Some "P", Some 0)]
          = Ok (Some "US", Some "P", Some 0)) as E1 by (vm_compute; reflexivity).
  assert (fold_relevance [(Some "CA", Some "P", Some 0); (Some "US", Some "P", Some 0)]
          = Ok (Some "CA", Some "P", Some 0)) as E2 by (vm_compute; reflexivity).
  rewrite E1, E2 in H.
  enough (Ok (Some "US", Some "P", Some 0) = Ok (Some "CA", Some "P", Some 0)) by discriminate.
  apply H.
  - apply NoDup_cons. split; [|apply NoDup_singleton].
    intros Hin. apply list_elem_of_singleton in Hin. discriminate.
  - repeat constructor; exists 1; reflexivity.
  - apply perm_swap.
Qed.

(** C9, amended.  Folding [relevance_choice] over ranked candidate
    records yields, for every permutation, a record of the same rank and
    the same population (nulls as 0), taken from the candidates; it yields
    the same record whenever no two distinct candidates tie. *)
Theorem fold_relevance_permutation (l l' : list RecordT) :
  Forall (ranked RH) l → Permutation l l' →
  ∃ r r',
    fold_relevance l = Ok r ∧ fold_relevance l' = Ok r'
    ∧ tie RH r r'
    ∧ (l ≠ [] → r ∈ l ∧ r' ∈ l)
    ∧ ((∀ x y, x ∈ l → y ∈ l → tie RH x y → x = y) → r = r').
Proof.
  intros Hl Hperm.
  assert (Forall (ranked RH) l') as Hl' by (by rewrite <- Hperm).
  destruct (fold_relevance_best l Hl) as (r & Hr & Hnil & Hin & Hbest).
  destruct (fold_relevance_best l' Hl') as (r' & Hr' & Hnil' & Hin' & Hbest').
  exists r, r'. split; [done|]. split; [done|].
  destruct l as [|x l].
  - apply Permutation_nil in Hperm. subst l'.
    rewrite (Hnil eq_refl), (Hnil' eq_refl). repeat split; try done.
  - assert (l' ≠ []) as Hne'.
    { intros ->. symmetry in Hperm. by apply Permutation_nil in Hperm. }
    specialize (Hin ltac:(done)). specialize (Hin' Hne').
    assert (r' ∈ x :: l) as Hin'l by (by rewrite Hperm).
    assert (r ∈ l') as Hinl' by (by rewrite <- Hperm).
    assert (tie RH r r') as Htie.
    { apply at_least_antisym; [| | by apply Hbest | by apply Hbest'].
      - by apply (proj1 (Forall_forall _ _) Hl).
      - by apply (proj1 (Forall_forall _ _) Hl'). }
    split; [done|]. split; [done|].
    intros Hnotie. by apply Hnotie.
Qed.

Lemma fold_relevance_permutation_witness :
  ∃ r r',
    fold_relevance [(Some "US", Some "P", Some 5000); (Some "USA", Some "C", None)] = Ok r
    ∧ fold_relevance [(Some "USA", Some "C", None); (Some "US", Some "P", Some 5000)] = Ok r'
    ∧ tie RH r r'.
Proof.
  destruct (fold_relevance_permutation
              [(Some "US", Some "P", Some 5000); (Some "USA", Some "C", None)]
              [(Some "USA", Some "C", None); (Some "US", Some "P", Some 5000)])
    as (r & r' & H1 & H2 & H3 & _).
  - repeat constructor; [exists 1 | exists 0]; reflexivity.
  - apply perm_swap.
  - exists r, r'. auto.
Defined.

(** ** The lookup store *)

Section lookup.
Context {U : Unicode}.

Lemma truthy_upper (s : str) : s ≠ [] → PyStr.truthy (PyStr.upper s) = true.
Proof.
  destruct s as [|c s]; [done|]. intros _. unfold PyStr.upper. cbn [map concat].
  pose proof (char_upper_nonempty c). by destruct (char_upper c).
Qed.

Lemma truthy_upper_2 (s : str) : length s = 2%nat → PyStr.truthy (PyStr.upper s) = true.
Proof. intros H. apply truthy_upper. by destruct s. Qed.

(** C4.  With [(c, f, p)] the record fetched for the normalized key: if
    [c] is a 2-character string, [search] looks that code up upper-cased
    and replaces only the country, keeping [f] and [p]; otherwise, if the
    key has exactly 2 characters and the raw input is upper-case, the key
    is elevated the same way; when the elevation lookup misses, [c] is
    kept; with no elevation the fetched record is returned. *)
Theorem search_elevation (db : Shelf) (geoname : str) (c : option str)
    (f : option str) (p : option Z) :
  db_get db (GeoNameBase.search_key geoname) GeoNameBase.MISSING = (c, f, p) →
  (∀ code, c = Some code → length code = 2%nat →
     (∀ rec, db !! PyStr.upper code = Some rec →
             GeoNameBase.search db geoname = (country rec, f, p))
     ∧ (db !! PyStr.upper code = None → GeoNameBase.search db geoname = (c, f, p)))
  ∧ ((∀ code, c = Some code → length code ≠ 2%nat) →
     length (GeoNameBase.search_key geoname) = 2%nat →
     PyStr.isupper geoname = true →
     (∀ rec, db !! PyStr.upper (GeoNameBase.search_key geoname) = Some rec →
             GeoNameBase.search db geoname = (country rec, f, p))
     ∧ (db !! PyStr.upper (GeoNameBase.search_key geoname) = None →
        GeoNameBase.search db geoname = (c, f, p)))
  ∧ ((∀ code, c = Some code → length code ≠ 2%nat) →
     length (GeoNameBase.search_key geoname) ≠ 2%nat
       ∨ PyStr.isupper geoname = false →
     GeoNameBase.search db geoname = (c, f, p)).
Proof.
  intros Hget. unfold GeoNameBase.search. rewrite Hget.
  unfold GeoNameBase.search_alpha2.
  split; [|split].
  - intros code -> Hlen. rewrite (proj2 (Nat.eqb_eq _ _) Hlen).
    rewrite (truthy_upper_2 code Hlen). unfold db_get.
    split.
    + intros [[c' f'] p'] ->. reflexivity.
    + intros ->. reflexivity.
  - intros Hc Hlen Hup. rewrite (proj2 (Nat.eqb_eq _ _) Hlen), Hup. cbn.
    assert (PyStr.truthy (PyStr.upper (GeoNameBase.search_key geoname)) = true) as Ht
        by (by apply truthy_upper_2).
    destruct c as [code|].
    + rewrite (proj2 (Nat.eqb_neq _ _) (Hc code eq_refl)). rewrite Ht.
      unfold db_get. split.
      * intros [[c' f'] p'] ->. reflexivity.
      * intros ->. reflexivity.
    + rewrite Ht. unfold db_get. split.
      * intros [[c' f'] p'] ->. reflexivity.
      * intros ->. reflexivity.
  - intros Hc Hno.
    assert ((length (GeoNameBase.search_key geoname) =? 2)%nat
            && PyStr.isupper geoname = false) as ->.
    { destruct Hno as [Hlen| ->]; [|apply andb_false_r].
      by rewrite (proj2 (Nat.eqb_neq _ _) Hlen). }
    destruct c as [code|]; [|done].
    by rewrite (proj2 (Nat.eqb_neq _ _) (Hc code eq_refl)).
Qed.

End lookup.

Lemma search_elevation_witness :
  GeoNameBase.search example_db "Springfield" = (Some "USA", Some "P", Some 5000)
  ∧ GeoNameBase.search example_db "US" = (Some "USA", None, None)
  ∧ GeoNameBase.search example_db "us" = (None, None, None).
Proof.
  split; [|split].
  - destruct (search_elevation example_db "Springfield" (Some "US") (Some "P")
                (Some 5000)) as (H & _); [reflexivity|].
    destruct (H "US" eq_refl eq_refl) as [Hhit _].
    apply (Hhit (Some "USA", Some "C", None)). reflexivity.
  - destruct (search_elevation example_db "US" None None None) as (_ & H & _);
      [reflexivity|].
    destruct H as [Hhit _]; [discriminate | reflexivity | reflexivity |].
    apply (Hhit (Some "USA", Some "C", None)). reflexivity.
  - destruct (search_elevation example_db "us" None None None) as (_ & _ & H);
      [reflexivity|].
    apply H; [discriminate | right; reflexivity].
Defined.

(** ** The normalizer never raises on a ranked store *)

Lemma db_ranked_empty : db_ranked ∅.
Proof. intros key r. by rewrite lookup_empty. Qed.

Lemma db_ranked_insert (db : Shelf) key r :
  ranked RH r → db_ranked db → db_ranked (<[key := r]> db).
Proof.
  intros Hr Hdb key' r'. rewrite lookup_insert. case_decide; [|apply Hdb].
  by intros [= <-].
Qed.

Lemma example_db_ranked : db_ranked example_db.
Proof.
  unfold example_db.
  repeat (apply db_ranked_insert; [eexists; reflexivity |]).
  apply db_ranked_empty.
Qed.

Lemma ranked_feature_class h a b :
  feature_class a = feature_class b → ranked h a → ranked h b.
Proof. intros E [n Hn]. exists n. by rewrite <- E. Qed.


(** The ASCII part of the database is case-stable. *)
Lemma ASCII_case_stable : @case_stable ASCII.
Proof.
  intros before c after d Hd Hcase. cbn in Hd, Hcase.
  apply list_elem_of_singleton in Hd. rewrite orb_false_r in Hcase.
  unfold case_fixed. cbn. unfold between in *.
  assert ((97 <=? d)%N && (d <=? 122)%N = false ∧ (65 <=? d)%N && (d <=? 90)%N = false)
    as [-> ->]; [|done].
  subst d.
  destruct (N.leb_spec 65 c), (N.leb_spec c 90); cbn in *;
    repeat match goal with
           | |- context [(?a <=? ?b)%N] => destruct (N.leb_spec a b)
           | H : context [(?a <=? ?b)%N] |- _ => destruct (N.leb_spec a b)
           end; cbn in *; try done; try lia; destruct Hcase; try done; lia.
Qed.


Section total.
Context {U : Unicode}.

(** *** Strings of fixed code points *)

Lemma lower_go_elem (s : str) :
  ∀ before d, d ∈ PyStr.lower_go before s → ∃ b c a, d ∈ char_lower b c a.
Proof.
  induction s as [|c s IH]; intros before d Hd; cbn in Hd.
  - by apply elem_of_nil in Hd.
  - apply elem_of_app in Hd as [Hd|Hd]; [by exists before, c, s | by eapply IH].
Qed.

Lemma lower_go_fixed (s : str) :
  Forall case_fixed s → ∀ before, PyStr.lower_go before s = s.
Proof.
  induction 1 as [|c s [_ Hc] Hs IH]; intros before; cbn; [done|].
  by rewrite Hc, IH.
Qed.

Lemma upper_fixed (s : str) : Forall case_fixed s → PyStr.upper s = s.
Proof.
  unfold PyStr.upper. induction 1 as [|c s [Hc _] Hs IH]; cbn; [done|].
  by rewrite Hc, IH.
Qed.

Lemma isupper_chars (s : str) d :
  PyStr.isupper s = true → d ∈ s →
  char_isupper d = true ∨ char_islower d || char_istitle d = false.
Proof.
  intros Hup Hd.
  assert (negb (existsb (fun c => char_islower c || char_istitle c) s) = true →
          char_islower d || char_istitle d = false) as Hgen.
  { intros Hno. apply negb_true_iff in Hno.
    destruct (char_islower d || char_istitle d) eqn:E; [|done].
    assert (existsb (fun c => char_islower c || char_istitle c) s = true) as Hex.
    { apply existsb_exists. exists d. split; [by apply list_elem_of_In | done]. }
    congruence. }
  destruct s as [|c [|c' s]].
  - by apply elem_of_nil in Hd.
  - apply list_elem_of_singleton in Hd as ->. by left.
  - right. apply Hgen. cbn [PyStr.isupper] in Hup. by apply andb_true_iff in Hup as [? _].
Qed.

Lemma Forall_lstrip (P : char → Prop) (s : str) : Forall P s → Forall P (PyStr.lstrip s).
Proof.
  induction 1 as [|c s Hc Hs IH]; cbn; [done|].
  destruct (char_isspace c); [done | by constructor].
Qed.

Lemma Forall_rstrip (P : char → Prop) (s : str) : Forall P s → Forall P (PyStr.rstrip s).
Proof.
  induction 1 as [|c s Hc Hs IH]; cbn; [done|].
  destruct (PyStr.rstrip s) as [|d t].
  - destruct (char_isspace c); [done | by constructor].
  - by constructor.
Qed.

Lemma Forall_strip (P : char → Prop) (s : str) : Forall P s → Forall P (PyStr.strip s).
Proof. intros H. by apply Forall_rstrip, Forall_lstrip. Qed.

Lemma Forall_split_ws_go (P : char → Prop) (s : str) :
  Forall P s →
  ∀ cur, (∀ w, cur = Some w → Forall P w) → Forall (Forall P) (PyStr.split_ws_go s cur).
Proof.
  induction 1 as [|c s Hc Hs IH]; intros cur Hcur; cbn.
  - destruct cur as [w|]; [|constructor]. constructor; [by apply Hcur | constructor].
  - destruct (char_isspace c).
    + destruct cur as [w|]; [constructor; [by apply Hcur|]|]; by apply IH.
    + apply IH. intros w [= <-]. destruct cur as [u|].
      * apply Forall_app. split; [by apply Hcur | by constructor].
      * by constructor.
Qed.

Lemma split_ws_go_nonempty (s : str) :
  ∀ cur, (∀ w, cur = Some w → w ≠ []) →
         Forall (fun w => w ≠ []) (PyStr.split_ws_go s cur).
Proof.
  induction s as [|c s IH]; intros cur Hcur; cbn.
  - destruct cur as [w|]; [|constructor]. constructor; [by apply Hcur | constructor].
  - destruct (char_isspace c).
    + destruct cur as [w|]; [constructor; [by apply Hcur|]|]; by apply IH.
    + apply IH. intros w [= <-]. by destruct cur as [[|? ?]|].
Qed.

Lemma join_length (sep : str) (w : str) (words : list str) :
  (length w ≤ length (PyStr.join sep (w :: words)))%nat.
Proof.
  cbn [PyStr.join]. destruct words; [done|]. rewrite length_app. lia.
Qed.

(** A joined text of two characters is one word. *)
Lemma join_length_2 (sep : str) (words : list str) :
  sep ≠ [] → Forall (fun w => w ≠ []) words →
  length (PyStr.join sep words) = 2%nat → words = [PyStr.join sep words].
Proof.
  intros Hsep Hwords Hlen. destruct Hwords as [|w words Hw Hwords]; [done|].
  destruct Hwords as [|w2 words Hw2 Hwords]; [done|]. exfalso.
  change (PyStr.join sep (w :: w2 :: words))
    with (w ++ sep ++ PyStr.join sep (w2 :: words)) in Hlen.
  rewrite !length_app in Hlen.
  pose proof (join_length sep w2 words).
  destruct w, sep, w2; cbn in *; try done; lia.
Qed.

(** The key of an upper-case lower-cased text, when it has two
    characters, is its own upper case. *)
Lemma search_key_lowered_fixed (s : str) :
  case_stable →
  PyStr.isupper (PyStr.lower s) = true →
  length (GeoNameBase.search_key (PyStr.lower s)) = 2%nat →
  PyStr.upper (GeoNameBase.search_key (PyStr.lower s))
  = GeoNameBase.search_key (PyStr.lower s).
Proof.
  intros Hstable Hup Hlen.
  assert (Forall case_fixed (PyStr.lower s)) as Hq.
  { apply Forall_forall. intros d Hd.
    destruct (lower_go_elem s [] d Hd) as (b & c & a & Hin).
    apply (Hstable b c a d Hin). by apply isupper_chars with (PyStr.lower s). }
  revert Hlen. unfold GeoNameBase.search_key.
  set (q := PyStr.lower s) in *.
  assert (PyStr.lower (PyStr.strip q) = PyStr.strip q) as ->.
  { apply lower_go_fixed. by apply Forall_strip. }
  intros Hlen.
  pose proof (Forall_split_ws_go case_fixed (PyStr.strip q)
                (Forall_strip _ _ Hq) None ltac:(done)) as Hwords.
  pose proof (split_ws_go_nonempty (PyStr.strip q) None ltac:(done)) as Hne.
  unfold PyStr.split_ws in Hlen.
  apply join_length_2 in Hlen; [|done|done].
  rewrite Hlen in Hwords. apply Forall_cons in Hwords as [Hkey _].
  by apply upper_fixed.
Qed.

(** What [search] returns for a lower-cased text. *)
Lemma search_lowered_foldable (db : Shelf) (s : str) :
  case_stable → db_ranked db → foldable (GeoNameBase.search db (PyStr.lower s)).
Proof.
  intros Hstable Hdb. unfold GeoNameBase.search, db_get.
  destruct (db !! GeoNameBase.search_key (PyStr.lower s)) as [[[c f] p]|] eqn:Hkey.
  - right. apply ranked_feature_class with (c, f, p); [|by eapply Hdb].
    by destruct (GeoNameBase.search_alpha2 _ _ _) as [a|]; [destruct (PyStr.truthy a)|].
  - left. unfold GeoNameBase.MISSING, GeoNameBase.search_alpha2.
    destruct (Nat.eqb_spec (length (GeoNameBase.search_key (PyStr.lower s))) 2)
      as [Hlen|Hlen]; cbn [andb]; [|done].
    destruct (PyStr.isupper (PyStr.lower s)) eqn:Hup; [|done].
    rewrite (search_key_lowered_fixed s Hstable Hup Hlen), Hkey.
    by destruct (PyStr.truthy _).
Qed.





End total.


(** ** Blacklist tolerance *)

Lemma count_hits_nonneg blacklist words : 0 ≤ count_hits blacklist words.
Proof. induction words as [|w words IH]; cbn; [done|]. destruct (blacklisted _ _); lia. Qed.


Section tolerance.
Context {U : Unicode}.

Lemma _normalize_location_words_stop (db : Shelf) blacklist tolerance words result hits :
  tolerance < hits →
  _normalize_location_words db blacklist tolerance words result hits = Ok (result, hits).
Proof.
  intros H. destruct words as [|word words]; cbn; [done|].
  by rewrite (proj2 (Z.ltb_lt _ _) H).
Qed.


(** Hits within the tolerance are absorbed: the words contribute as they
    do with an empty blacklist. *)
Lemma _normalize_location_words_absorbed (db : Shelf) blacklist tolerance words :
  ∀ result hits hits0,
    hits + count_hits blacklist words ≤ tolerance → hits0 ≤ tolerance →
    _normalize_location_words db blacklist tolerance words result hits =
      (x ← _normalize_location_words db [] tolerance words result hits0;
       Ok (x.1, hits + count_hits blacklist words)).
Proof.
  induction words as [|word words IH]; intros result hits hits0 Hle H0; cbn.
  - do 2 f_equal. lia.
  - fold (blacklisted blacklist word).
    pose proof (count_hits_nonneg blacklist words) as Hnn. cbn in Hle.
    rewrite (proj2 (Z.ltb_ge tolerance hits)) by (destruct (blacklisted blacklist word); lia).
    rewrite (proj2 (Z.ltb_ge tolerance hits0)) by lia.
    rewrite Z.add_0_r.
    destruct (PyStr.truthy _).
    + destruct (relevance_choice _ _) as [r'|e]; cbn; [|done].
      rewrite (IH r' _ hits0) by (destruct (blacklisted blacklist word); lia).
      destruct (_normalize_location_words _ _ _ _ _ _) as [[? ?]|]; cbn; [|done].
      do 2 f_equal. lia.
    + rewrite (IH result _ hits0) by (destruct (blacklisted blacklist word); lia).
      destruct (_normalize_location_words _ _ _ _ _ _) as [[? ?]|]; cbn; [|done].
      do 2 f_equal. lia.
Qed.

Lemma _normalize_location_seps_cons (db : Shelf) location blacklist tolerance sep seps result :
  _normalize_location_seps db location blacklist tolerance (sep :: seps) result =
    ('(normalized, hits) ←
       _normalize_location_impl db location blacklist tolerance result sep;
     if tolerance <? hits then Ok result
     else _normalize_location_seps db location blacklist tolerance seps normalized).
Proof. reflexivity. Qed.




End tolerance.


(** ** Separator strategies *)

Section strategies.
Context {U : Unicode}.

Lemma try_strategies_seps (db : Shelf) location blacklist tolerance seps :
  ∀ result,
    _normalize_location_seps db location blacklist tolerance seps result
    = try_strategies db location blacklist tolerance (map split_strategy seps) result.
Proof.
  induction seps as [|sep seps IH]; intros result; [done|].
  rewrite _normalize_location_seps_cons. cbn [map try_strategies].
  unfold _normalize_location_impl.
  change (split_strategy sep location) with (PyStr.split location sep).
  destruct (PyStr.split location sep) as [words|e]; cbn [mbind res_bind]; [|done].
  destruct (_normalize_location_words _ _ _ _ _ _) as [[normalized hits]|e];
    cbn [mbind res_bind]; [|done].
  by rewrite IH.
Qed.

(** C3, amended.  The normalizer collapses whitespace once and then tries
    the separator strategies in the fixed order comma, ampersand, pipe,
    slash, [" ("], and no other; each strategy splits the whole
    whitespace-collapsed string, never a narrowed remainder. *)
Theorem normalize_separator_strategies (db : Shelf) (location : str)
    (blacklist : _BlackListT) (tolerance : Z) :
  CONTENT_SEPARATORS = [","; "&"; "|"; "/"; " ("]
  ∧ _normalize_location db location blacklist tolerance
    = normalize_by separator_strategies db location blacklist tolerance.
Proof.
  split; [reflexivity|].
  unfold _normalize_location, normalize_by, separator_strategies.
  fold (PyStr.collapse location).
  destruct (PyStr.truthy (PyStr.collapse location)); [|done].
  apply try_strategies_seps.
Qed.

End strategies.

(** C3, refuted as stated: on a location in which all five separators
    occur no strategy takes the whole string as one token, so a key equal
    to the unsplit location is found by the strategies as specified and
    not by the code. *)
Lemma no_whole_string_strategy :
  _normalize_location unsplit_db "a,b&c|d/e (f" [] 0 = Ok NOT_FOUND
  ∧ normalize_by specified_strategies unsplit_db "a,b&c|d/e (f" [] 0
    = Ok (Some "USA", Some "C", None)
  ∧ _normalize_location unsplit_db "a,b&c|d/e (f" [] 0
    ≠ normalize_by specified_strategies unsplit_db "a,b&c|d/e (f" [] 0.
Proof.
  assert (_normalize_location unsplit_db "a,b&c|d/e (f" [] 0 = Ok NOT_FOUND) as E1
      by (vm_compute; reflexivity).
  assert (normalize_by specified_strategies unsplit_db "a,b&c|d/e (f" [] 0
          = Ok (Some "USA", Some "C", None)) as E2 by (vm_compute; reflexivity).
  split; [done|]. split; [done|]. rewrite E1, E2. discriminate.
Qed.

Lemma occurs_cons sep c s :
  occurs sep (c :: s) = PyStr.startswith (c :: s) sep || occurs sep s.
Proof. reflexivity. Qed.

(** A separator strategy takes the whole location as its single token
    when its separator does not occur in it. *)
Lemma split_no_occurrence (sep s : str) :
  sep ≠ [] → occurs sep s = false → PyStr.split s sep = Ok [s].
Proof.
  intros Hsep Hocc. unfold PyStr.split. destruct sep as [|c0 sep]; [done|].
  f_equal. change [s] with [[] ++ s]. generalize (@nil N) as cur.
  induction s as [|c s IH]; intros cur.
  - cbn [PyStr.split_go]. by rewrite app_nil_r.
  - rewrite occurs_cons in Hocc. apply orb_false_elim in Hocc as [Hpre Hocc].
    cbn [PyStr.split_go]. rewrite Hpre, (IH Hocc). by rewrite <- app_assoc.
Qed.

(** ** Writes to the store *)

(** C2, refuted as stated: under a key that already holds a country
    record the comparator keeps the existing record (a tie keeps the first
    operand), yet a country-alias row and a country-code row replace it. *)
Lemma country_rows_overwrite :
  let existing := {| oid := 1; tup := (Some "GEO", Some "C", None) |} in
  let new := {| oid := 0; tup := (Some "USA", Some "C", None) |} in
  relevance_choice_on tup RH existing new = Ok existing
  ∧ (CountryAliases.push_row
       {| CountryAliases.iso3 := Some "USA"; CountryAliases.Alias := Some "Georgia" |}
       (<["georgia" := tup existing]> ∅)).1 !! "georgia" = Some (tup new)
  ∧ (CountryCodes.push_row
       {| CountryCodes.alpha2 := Some "GE"; CountryCodes.alpha3 := Some "USA" |}
       (<["GE" := tup existing]> ∅)).1 !! "GE" = Some (tup new)
  ∧ tup new ≠ tup existing.
Proof.
  cbv zeta. split; [vm_compute; reflexivity|].
  split; [vm_compute; reflexivity|].
  split; [vm_compute; reflexivity | discriminate].
Qed.

(** C2, amended.  The map holds at most one record per key.  For place
    rows, a write to a key already present resolves the collision with
    the comparator: the existing record survives unless
    [relevance_choice(existing, new) is new], in which case the new record
    replaces it (an absent key is inserted).  Country-alias and
    country-code rows are written without the comparator: the new country
    record replaces whatever the key holds, which is the comparator's
    choice whenever the existing record is ranked below Country. *)
Theorem write_collisions {U : Unicode} :
  (∀ (db : Shelf) key r1 r2, db !! key = Some r1 → db !! key = Some r2 → r1 = r2)
  ∧ (∀ (db : Shelf) name new_record existing chosen,
       db !! name = Some existing →
       relevance_choice_on tup RH
         {| oid := S (oid new_record); tup := existing |} new_record = Ok chosen →
       (py_is chosen new_record = true →
        Geonames.store name new_record db = (<[name := tup new_record]> db, Ok ()))
       ∧ (py_is chosen new_record = false →
          Geonames.store name new_record db = (db, Ok ())))
  ∧ (∀ (db : Shelf) name new_record,
       db !! name = None →
       Geonames.store name new_record db = (<[name := tup new_record]> db, Ok ()))
  ∧ (∀ (db : Shelf) row alias,
       CountryAliases.Alias row = Some alias →
       CountryAliases.push_row row db
       = (<[PyStr.lower alias := (CountryAliases.iso3 row, Some "C", None)]> db, Ok ()))
  ∧ (∀ (db : Shelf) row a2,
       CountryCodes.alpha2 row = Some a2 →
       CountryCodes.push_row row db
       = (<[PyStr.upper a2 := (CountryCodes.alpha3 row, Some "C", None)]> db, Ok ()))
  ∧ (∀ existing code n,
       hierarchy_get RH (feature_class existing) = Ok n → 0 < n →
       relevance_choice existing (code, Some "C", None) = Ok (code, Some "C", None)).
Proof.
  split; [intros db key r1 r2 H1 H2; congruence|].
  split.
  { intros db name new_record existing chosen Hold Hc.
    unfold Geonames.store. rewrite Hold, Hc. by split; intros ->. }
  split.
  { intros db name new_record Hnone. unfold Geonames.store. by rewrite Hnone. }
  split.
  { intros db row alias Ha. unfold CountryAliases.push_row. by rewrite Ha. }
  split.
  { intros db row a2 Ha. unfold CountryCodes.push_row. by rewrite Ha. }
  intros existing code n Hn Hpos.
  unfold relevance_choice, relevance_choice_in.
  rewrite (relevance_choice_on_ranked id RH existing (code, Some "C", None) n 0).
  - by rewrite (proj2 (Z.ltb_lt 0 n)).
  - intros E. cbv [id] in E. subst existing. discriminate Hn.
  - discriminate.
  - done.
  - reflexivity.
Qed.

Lemma write_collisions_witness :
  Geonames.store "springfield"
    {| oid := 0; tup := (Some "CA", Some "P", Some 9000) |} example_db
  = (<["springfield" := (Some "CA", Some "P", Some 9000)]> example_db, Ok ())
  ∧ Geonames.store "springfield"
      {| oid := 0; tup := (Some "CA", Some "P", Some 5000) |} example_db
    = (example_db, Ok ())
  ∧ Geonames.store "shelbyville"
      {| oid := 0; tup := (Some "US", Some "P", Some 10) |} example_db
    = (<["shelbyville" := (Some "US", Some "P", Some 10)]> example_db, Ok ())
  ∧ relevance_choice (Some "US", Some "P", Some 5000) (Some "USA", Some "C", None)
    = Ok (Some "USA", Some "C", None).
Proof.
  destruct (write_collisions (U := ASCII)) as (_ & Hstore & Hnew & _ & _ & Hcountry).
  split; [|split; [|split]].
  - destruct (Hstore example_db "springfield"
                {| oid := 0; tup := (Some "CA", Some "P", Some 9000) |}
                (Some "US", Some "P", Some 5000)
                {| oid := 0; tup := (Some "CA", Some "P", Some 9000) |}) as [H _];
      [reflexivity | reflexivity |].
    apply H. reflexivity.
  - destruct (Hstore example_db "springfield"
                {| oid := 0; tup := (Some "CA", Some "P", Some 5000) |}
                (Some "US", Some "P", Some 5000)
                {| oid := 1; tup := (Some "US", Some "P", Some 5000) |}) as [_ H];
      [reflexivity | reflexivity |].
    apply H. reflexivity.
  - apply Hnew. reflexivity.
  - apply (Hcountry (Some "US", Some "P", Some 5000) (Some "USA") 1); [reflexivity | lia].
Defined.

(** ** Building the store *)






(** ** Examples *)

Example split_comma : PyStr.split "a,,b" "," = Ok ["a"; ""; "b"].
Proof. reflexivity. Qed.

Example split_paren : PyStr.split "Paris (Ile) (x" " (" = Ok ["Paris"; "Ile)"; "x"].
Proof. reflexivity. Qed.

Example split_empty_string : PyStr.split "" "," = Ok [""].
Proof. reflexivity. Qed.

Example split_empty_separator : PyStr.split "a b" "" = Raise (ValueError "empty separator").
Proof. reflexivity. Qed.

Example collapse_spaces : PyStr.collapse "  New   York  " = "New York".
Proof. reflexivity. Qed.

Example transform_word :
  _transform_word_to_query " St. Mary's (Ile) " = "st. marys ile".
Proof. vm_compute. reflexivity. Qed.

Example push_example_sources :
  foldl (fun db source => (push source db).1) ∅ example_sources = example_db
  ∧ foldl (fun db source => (push source db).1) ∅ (reverse example_sources) = example_db.
Proof. split; vm_compute; reflexivity. Qed.

Example normalize_springfield_america :
  normalize_location example_db "Springfield, America" [] 0 = Ok (Some "USA")
  ∧ _normalize_location example_db "Springfield, America" [] 0
    = Ok (Some "USA", Some "C", None).
Proof. split; vm_compute; reflexivity. Qed.

Example normalize_springfield_us :
  _normalize_location example_db "Springfield, US" [] 0
  = Ok (Some "USA", Some "P", Some 5000).
Proof. vm_compute. reflexivity. Qed.

(** An upper-case query: [str.lower] leaves the double-struck capital C
    upper-case, so the query of the token is upper-case, has two
    characters, and [search] elevates its key. *)
Example upper_case_query :
  _transform_word_to_query (U := Letterlike) [8450; 49]%N = [8450; 49]%N
  ∧ PyStr.isupper (U := Letterlike) [8450; 49]%N = true
  ∧ GeoNameBase.search_alpha2 (U := Letterlike) [8450; 49]%N [8450; 49]%N None
    = Some [8450; 49]%N
  ∧ GeoNameBase.search (U := Letterlike)
      (<[[8450; 49]%N := (Some "XYZ", Some "P", Some 1)]> ∅) [8450; 49]%N
    = (Some "XYZ", Some "P", Some 1)
  ∧ GeoNameBase.search (U := Letterlike) example_db [8450; 49]%N = NOT_FOUND.
Proof. repeat split; vm_compute; reflexivity. Qed.

Example relevance_choice_unranked :
  relevance_choice (Some "US", Some "P", Some 5000) (Some "USA", None, None)
  = Raise (KeyError None).
Proof. vm_compute. reflexivity. Qed.
(** * Further properties *)

(** ** The comparator as an operation *)

Lemma hierarchy_get_cases h fc :
  (∃ n, hierarchy_get h fc = Ok n) ∨ hierarchy_get h fc = Raise (KeyError fc).
Proof.
  destruct fc as [c|]; cbn; [|by right].
  destruct (h !! c) as [n|]; [left; by exists n | by right].
Qed.

Lemma relevance_choice_on_unranked_r {A} (tup : A → RecordT) h a b n e :
  tup a ≠ NOT_FOUND → tup b ≠ NOT_FOUND →
  hierarchy_get h (feature_class (tup a)) = Ok n →
  hierarchy_get h (feature_class (tup b)) = Raise e →
  relevance_choice_on tup h a b = Raise e.
Proof.
  intros Ha Hb Hra Hrb. unfold relevance_choice_on.
  rewrite !bool_decide_eq_false_2 by done. by rewrite Hra, Hrb.
Qed.

(** X1.  [relevance_choice] raises exactly when neither operand equals
    [NOT_FOUND] and one of them is unranked; the exception is the
    [KeyError] of the first unranked feature class, the first operand's
    being looked up first. *)
Theorem relevance_choice_raises (a b : RecordT) (e : exn) :
  relevance_choice a b = Raise e
  ↔ a ≠ NOT_FOUND ∧ b ≠ NOT_FOUND
    ∧ ((¬ ranked RH a ∧ e = KeyError (feature_class a))
       ∨ (ranked RH a ∧ ¬ ranked RH b ∧ e = KeyError (feature_class b))).
Proof.
  unfold relevance_choice, relevance_choice_in.
  destruct (decide (b = NOT_FOUND)) as [Hb|Hb].
  { rewrite relevance_choice_on_not_found_r by done. split; [done | tauto]. }
  destruct (decide (a = NOT_FOUND)) as [Ha|Ha].
  { rewrite relevance_choice_on_not_found_l by done. split; [done | tauto]. }
  destruct (hierarchy_get_cases RH (feature_class a)) as [[ra Hra]|Hra].
  - destruct (hierarchy_get_cases RH (feature_class b)) as [[rb Hrb]|Hrb].
    + rewrite (relevance_choice_on_ranked id RH a b ra rb Ha Hb Hra Hrb).
      split; [done|]. intros (_ & _ & [[Hn _]|(_ & Hn & _)]).
      * destruct Hn. by exists ra.
      * destruct Hn. by exists rb.
    + rewrite (relevance_choice_on_unranked_r id RH a b ra _ Ha Hb Hra Hrb).
      assert (¬ ranked RH b) as Hnb.
      { intros [n Hn]. unfold id in *. congruence. }
      split.
      * intros [= <-]. split; [done|]. split; [done|]. right.
        split; [by exists ra | done].
      * intros (_ & _ & [[Hn _]|(_ & _ & ->)]); [|done].
        destruct Hn. by exists ra.
  - rewrite (relevance_choice_on_unranked_l id RH a b _ Ha Hb Hra).
    assert (¬ ranked RH a) as Hna.
    { intros [n Hn]. unfold id in *. congruence. }
    split.
    + intros [= <-]. split; [done|]. split; [done|]. by left.
    + intros (_ & _ & [[_ ->]|(Hr & _)]); done.
Qed.

Lemma relevance_choice_raises_witness :
  relevance_choice (Some "US", Some "P", Some 5000) (Some "USA", None, None)
  = Raise (KeyError None).
Proof.
  apply (relevance_choice_raises (Some "US", Some "P", Some 5000)
           (Some "USA", None, None) (KeyError None)).
  split; [discriminate|]. split; [discriminate|]. right.
  split; [exists 1; reflexivity|]. split; [|reflexivity].
  intros [n Hn]. discriminate Hn.
Defined.

Lemma relevance_choice_ranked_eq a b :
  ranked RH a → ranked RH b →
  relevance_choice a b =
    Ok (if (rank_of b <? rank_of a)
           || ((rank_of a =? rank_of b) && (population_or_0 a <? population_or_0 b))
        then b else a).
Proof.
  intros Ha Hb. unfold relevance_choice, relevance_choice_in.
  apply (relevance_choice_on_ranked id RH a b (rank_of a) (rank_of b)).
  - by apply ranked_not_NOT_FOUND with RH.
  - by apply ranked_not_NOT_FOUND with RH.
  - by apply ranked_rank_of.
  - by apply ranked_rank_of.
Qed.

Lemma relevance_choice_NOT_FOUND_r a : relevance_choice a NOT_FOUND = Ok a.
Proof. by apply relevance_choice_on_not_found_r. Qed.

Lemma relevance_choice_NOT_FOUND_l b : relevance_choice NOT_FOUND b = Ok b.
Proof.
  destruct (decide (b = NOT_FOUND)) as [->|Hb].
  - apply relevance_choice_NOT_FOUND_r.
  - by apply relevance_choice_on_not_found_l.
Qed.

Lemma relevance_choice_assoc_ranked a b c :
  ranked RH a → ranked RH b → ranked RH c →
  (x ← relevance_choice b c; relevance_choice a x)
  = (y ← relevance_choice a b; relevance_choice y c).
Proof.
  intros Ha Hb Hc.
  rewrite (relevance_choice_ranked_eq b c Hb Hc), (relevance_choice_ranked_eq a b Ha Hb).
  cbn [mbind res_bind].
  destruct ((rank_of c <? rank_of b) || _) eqn:Ebc;
    destruct ((rank_of b <? rank_of a) || _) eqn:Eab;
    rewrite ?(relevance_choice_ranked_eq a c Ha Hc),
            ?(relevance_choice_ranked_eq a b Ha Hb),
            ?(relevance_choice_ranked_eq b c Hb Hc); rewrite ?Ebc, ?Eab; try done.
  - destruct ((rank_of c <? rank_of a) || _) eqn:Eac; [done|]. exfalso.
    apply orb_true_iff in Ebc, Eab. apply orb_false_iff in Eac as [E1 E2].
    rewrite andb_true_iff in Ebc, Eab. rewrite andb_false_iff in E2.
    rewrite !Z.ltb_lt, !Z.eqb_eq in *. rewrite Z.ltb_ge in E1.
    rewrite Z.eqb_neq, Z.ltb_ge in E2. lia.
  - destruct ((rank_of c <? rank_of a) || _) eqn:Eac; [|done]. exfalso.
    apply orb_false_iff in Ebc as [E1 E2], Eab as [E3 E4].
    apply orb_true_iff in Eac. rewrite andb_true_iff in Eac.
    rewrite andb_false_iff in E2, E4.
    rewrite !Z.ltb_lt, !Z.eqb_eq in *. rewrite Z.ltb_ge in E1, E3.
    rewrite Z.eqb_neq, Z.ltb_ge in E2, E4. lia.
Qed.

(** X2.  On records that are [NOT_FOUND] or ranked, [relevance_choice] is
    associative, with [NOT_FOUND] as a two-sided identity: folding it over
    a sequence does not depend on the grouping. *)
Theorem relevance_choice_assoc (a b c : RecordT) :
  foldable a → foldable b → foldable c →
  (x ← relevance_choice b c; relevance_choice a x)
  = (y ← relevance_choice a b; relevance_choice y c)
  ∧ relevance_choice a NOT_FOUND = Ok a
  ∧ relevance_choice NOT_FOUND a = Ok a.
Proof.
  intros Ha Hb Hc.
  split; [|split; [apply relevance_choice_NOT_FOUND_r | apply relevance_choice_NOT_FOUND_l]].
  destruct Hc as [->|Hc].
  { rewrite relevance_choice_NOT_FOUND_r. cbn [mbind res_bind].
    destruct (relevance_choice a b) as [y|e]; cbn [mbind res_bind]; [|done].
    by rewrite relevance_choice_NOT_FOUND_r. }
  destruct Hb as [->|Hb].
  { rewrite relevance_choice_NOT_FOUND_l, relevance_choice_NOT_FOUND_r. done. }
  destruct Ha as [->|Ha].
  { rewrite relevance_choice_NOT_FOUND_l. cbn [mbind res_bind].
    destruct (relevance_choice b c) as [x|e]; cbn [mbind res_bind]; [|done].
    by rewrite relevance_choice_NOT_FOUND_l. }
  by apply relevance_choice_assoc_ranked.
Qed.

Lemma relevance_choice_assoc_witness :
  (x ← relevance_choice (Some "FR", Some "A", Some 70) (Some "USA", Some "C", None);
   relevance_choice (Some "US", Some "P", Some 70) x)
  = (y ← relevance_choice (Some "US", Some "P", Some 70) (Some "FR", Some "A", Some 70);
     relevance_choice y (Some "USA", Some "C", None)).
Proof.
  apply (relevance_choice_assoc (Some "US", Some "P", Some 70)
           (Some "FR", Some "A", Some 70) (Some "USA", Some "C", None));
    right; eexists; reflexivity.
Defined.

(** *** The hierarchy *)

Lemma RELEVANCE_HIERARCHY_lookup fc n :
  RH !! fc = Some n →
  (fc, n) ∈ [("C", 0); ("A", 1); ("P", 1); ("T", 2); ("R", 3);
             ("H", 4); ("S", 5); ("L", 6); ("V", 7); ("U", 8)].
Proof. intros H. by apply elem_of_list_to_map_2 in H. Qed.

(** X3.  Every rank of the hierarchy lies between 0 and 8 and only the
    class [C] has rank 0; hence a Country record wins against any ranked
    record of another class, whichever operand it is and whatever the
    populations. *)
Theorem country_outranks :
  (∀ fc n, RH !! fc = Some n → 0 ≤ n ≤ 8 ∧ (n = 0 ↔ fc = "C"))
  ∧ (∀ r k,
       ranked RH r → feature_class r ≠ Some "C" → feature_class k = Some "C" →
       relevance_choice r k = Ok k ∧ relevance_choice k r = Ok k).
Proof.
  assert (∀ fc n, RH !! fc = Some n → 0 ≤ n ≤ 8 ∧ (n = 0 ↔ fc = "C")) as Hranks.
  { intros fc n H. apply RELEVANCE_HIERARCHY_lookup in H.
    repeat (apply elem_of_cons in H as [[= -> ->]|H]; [split; [lia | done]|]).
    by apply elem_of_nil in H. }
  split; [exact Hranks|].
  intros r k Hr Hnc Hk.
  assert (ranked RH k) as Hrk by (exists 0; by rewrite Hk).
  assert (rank_of k = 0) as Ek by (unfold rank_of; by rewrite Hk).
  assert (0 < rank_of r) as Er.
  { destruct Hr as [n Hn]. unfold rank_of. rewrite Hn.
    destruct (feature_class r) as [fc|] eqn:Efc; [|done].
    unfold hierarchy_get in Hn.
    destruct (RH !! fc) as [m|] eqn:Em; [|done]. injection Hn as ->.
    destruct (Hranks fc n Em) as [Hb Hz].
    assert (n ≠ 0) by (intros E; apply Hz in E; congruence). lia. }
  rewrite (relevance_choice_ranked_eq r k Hr Hrk), (relevance_choice_ranked_eq k r Hrk Hr).
  rewrite Ek. split.
  - by rewrite (proj2 (Z.ltb_lt 0 (rank_of r)) Er).
  - rewrite (proj2 (Z.ltb_ge (rank_of r) 0)) by lia.
    by rewrite (proj2 (Z.eqb_neq 0 (rank_of r))) by lia.
Qed.

Lemma country_outranks_witness :
  relevance_choice (Some "US", Some "P", Some 8000000) (Some "USA", Some "C", None)
    = Ok (Some "USA", Some "C", None)
  ∧ relevance_choice (Some "USA", Some "C", None) (Some "US", Some "P", Some 8000000)
    = Ok (Some "USA", Some "C", None).
Proof.
  destruct country_outranks as [_ H].
  apply H; [exists 1; reflexivity | discriminate | reflexivity].
Defined.

(** ** Writing place records *)

Lemma for_rows_cons {Row : Type} (body : Row → Shelf → Shelf * res unit)
    (row : Row) (rows : list Row) (db : Shelf) :
  for_rows body (row :: rows) db =
    match body row db with
    | (db', Ok _) => for_rows body rows db'
    | (db', Raise e) => (db', Raise e)
    end.
Proof. reflexivity. Qed.

(** On a ranked store a ranked record is written exactly when it is
    strictly better than the one the key holds. *)
Lemma Geonames_store_ranked (db : Shelf) name new_record :
  db_ranked db → ranked RH (tup new_record) →
  Geonames.store name new_record db =
    match db !! name with
    | Some old =>
        if (rank_of (tup new_record) <? rank_of old)
           || ((rank_of old =? rank_of (tup new_record))
               && (population_or_0 old <? population_or_0 (tup new_record)))
        then (<[name := tup new_record]> db, Ok ())
        else (db, Ok ())
    | None => (<[name := tup new_record]> db, Ok ())
    end.
Proof.
  intros Hdb Hnew. unfold Geonames.store.
  destruct (db !! name) as [old|] eqn:Hold; [|done].
  assert (ranked RH old) as Hro by (by eapply Hdb).
  rewrite (relevance_choice_on_ranked tup RH
             {| oid := S (oid new_record); tup := old |} new_record
             (rank_of old) (rank_of (tup new_record)));
    [| by apply ranked_not_NOT_FOUND with RH | by apply ranked_not_NOT_FOUND with RH
     | by apply ranked_rank_of | by apply ranked_rank_of ].
  cbn [tup]. destruct (_ || _); unfold py_is; cbn [oid].
  - by rewrite Nat.eqb_refl.
  - by rewrite (proj2 (Nat.eqb_neq (S (oid new_record)) (oid new_record))) by lia.
Qed.

(** X4.  On a ranked store, writing a ranked place record under a name
    never raises and touches no other key; afterwards the name holds
    either the new record or the one it held before, whichever the
    comparator prefers, and that record is at least as good as both. *)
Theorem Geonames_store_keeps_best (db : Shelf) (name : str) (new_record : TupleObj) :
  db_ranked db → ranked RH (tup new_record) →
  ∃ db' r,
    Geonames.store name new_record db = (db', Ok ())
    ∧ db' !! name = Some r
    ∧ (∀ key, key ≠ name → db' !! key = db !! key)
    ∧ (r = tup new_record ∨ db !! name = Some r)
    ∧ at_least r (tup new_record)
    ∧ (∀ old, db !! name = Some old → at_least r old).
Proof.
  intros Hdb Hnew. rewrite (Geonames_store_ranked db name new_record Hdb Hnew).
  destruct (db !! name) as [old|] eqn:Hold.
  - destruct (_ || _) eqn:Ebetter.
    + exists (<[name := tup new_record]> db), (tup new_record).
      split; [done|]. split; [apply lookup_insert_eq|].
      split; [intros key Hk; by apply lookup_insert_ne|].
      split; [by left|]. split; [apply at_least_refl|].
      intros ? [= <-]. unfold at_least.
      apply orb_true_iff in Ebetter. rewrite andb_true_iff in Ebetter.
      rewrite !Z.ltb_lt, Z.eqb_eq in Ebetter. lia.
    + exists db, old. split; [done|]. split; [done|]. split; [done|].
      split; [by right|]. split; [|intros ? [= <-]; apply at_least_refl].
      unfold at_least. apply orb_false_iff in Ebetter as [E1 E2].
      rewrite andb_false_iff in E2. rewrite Z.ltb_ge in E1.
      rewrite Z.eqb_neq, Z.ltb_ge in E2. lia.
  - exists (<[name := tup new_record]> db), (tup new_record).
    split; [done|]. split; [apply lookup_insert_eq|].
    split; [intros key Hk; by apply lookup_insert_ne|].
    split; [by left|]. split; [apply at_least_refl | done].
Qed.

Lemma Geonames_store_keeps_best_witness :
  ∃ db' r,
    Geonames.store "springfield"
      {| oid := 0; tup := (Some "CA", Some "P", Some 9000) |} example_db = (db', Ok ())
    ∧ db' !! "springfield" = Some r
    ∧ at_least r (Some "CA", Some "P", Some 9000).
Proof.
  destruct (Geonames_store_keeps_best example_db "springfield"
              {| oid := 0; tup := (Some "CA", Some "P", Some 9000) |})
    as (db' & r & H1 & H2 & _ & _ & H3 & _).
  - apply example_db_ranked.
  - exists 1. reflexivity.
  - exists db', r. auto.
Defined.

(** Successive writes under one name, from a key that holds [seed]. *)
Lemma Geonames_store_sequence name (objs : list TupleObj) :
  ∀ (db : Shelf) seed,
    db_ranked db → db !! name = Some seed →
    Forall (fun o => ranked RH (tup o)) objs →
    ∃ r, foldl (fun acc record => result ← acc; relevance_choice result record)
               (Ok seed) (map tup objs) = Ok r
         ∧ for_rows (Geonames.store name) objs db = (<[name := r]> db, Ok ()).
Proof.
  induction objs as [|o objs IH]; intros db seed Hdb Hseed Hobjs.
  - exists seed. split; [done|]. cbn. by rewrite insert_id.
  - apply Forall_cons in Hobjs as [Ho Hobjs].
    assert (ranked RH seed) as Hrs by (by eapply Hdb).
    rewrite for_rows_cons, (Geonames_store_ranked db name o Hdb Ho), Hseed.
    cbn [map foldl mbind res_bind].
    rewrite (relevance_choice_ranked_eq seed (tup o) Hrs Ho).
    destruct (_ || _).
    + destruct (IH (<[name := tup o]> db) (tup o)) as (r & Hr & Hrows);
        [by apply db_ranked_insert | apply lookup_insert_eq | done |].
      exists r. split; [done|]. by rewrite Hrows, insert_insert_eq.
    + destruct (IH db seed) as (r & Hr & Hrows); [done | done | done |].
      by exists r.
Qed.

(** X5.  Writing a sequence of ranked place records under a name the
    ranked store does not hold yet leaves under that name the fold of
    [relevance_choice] over the records, in the order written. *)
Theorem Geonames_store_fold (db : Shelf) (name : str) (objs : list TupleObj) :
  db_ranked db → db !! name = None → objs ≠ [] →
  Forall (fun o => ranked RH (tup o)) objs →
  ∃ r, fold_relevance (map tup objs) = Ok r
       ∧ for_rows (Geonames.store name) objs db = (<[name := r]> db, Ok ()).
Proof.
  intros Hdb Hnone Hne Hobjs. destruct objs as [|o objs]; [done|].
  apply Forall_cons in Hobjs as [Ho Hobjs].
  rewrite for_rows_cons, (Geonames_store_ranked db name o Hdb Ho), Hnone.
  unfold fold_relevance. cbn [map foldl mbind res_bind].
  rewrite relevance_choice_NOT_FOUND_l.
  destruct (Geonames_store_sequence name objs (<[name := tup o]> db) (tup o))
    as (r & Hr & Hrows); [by apply db_ranked_insert | apply lookup_insert_eq | done |].
  exists r. split; [done|]. by rewrite Hrows, insert_insert_eq.
Qed.

Lemma Geonames_store_fold_witness :
  ∃ r,
    fold_relevance [(Some "US", Some "P", Some 10); (Some "CA", Some "P", Some 90)] = Ok r
    ∧ for_rows (Geonames.store "shelbyville")
        [{| oid := 0; tup := (Some "US", Some "P", Some 10) |};
         {| oid := 0; tup := (Some "CA", Some "P", Some 90) |}] example_db
      = (<["shelbyville" := r]> example_db, Ok ()).
Proof.
  apply (Geonames_store_fold example_db "shelbyville"
           [{| oid := 0; tup := (Some "US", Some "P", Some 10) |};
            {| oid := 0; tup := (Some "CA", Some "P", Some 90) |}]).
  - apply example_db_ranked.
  - reflexivity.
  - discriminate.
  - repeat constructor; exists 1; reflexivity.
Defined.

(** ** Pushing a source *)

Lemma for_rows_app {Row : Type} (body : Row → Shelf → Shelf * res unit)
    (rows1 rows2 : list Row) (db : Shelf) :
  for_rows body (rows1 ++ rows2) db =
    match for_rows body rows1 db with
    | (db', Ok _) => for_rows body rows2 db'
    | (db', Raise e) => (db', Raise e)
    end.
Proof.
  revert db. induction rows1 as [|row rows1 IH]; intros db; [done|].
  cbn [app]. rewrite !for_rows_cons.
  destruct (body row db) as [db' [u|e]]; [apply IH | done].
Qed.

(** Chunks pushed one by one are the rows of their concatenation pushed
    in one go, for an [alter] that works row by row. *)
Lemma for_rows_chunks {Row : Type} (alter : list Row → list Row)
    (body : Row → Shelf → Shelf * res unit) :
  alter [] = [] → (∀ l1 l2, alter (l1 ++ l2) = alter l1 ++ alter l2) →
  ∀ (chunks : list (list Row)) (db : Shelf),
    for_rows (fun chunk => for_rows body (alter chunk)) chunks db
    = for_rows body (alter (concat chunks)) db.
Proof.
  intros Hnil Happ chunks. induction chunks as [|chunk chunks IH]; intros db.
  - cbn. by rewrite Hnil.
  - cbn [concat]. rewrite Happ, for_rows_app, for_rows_cons.
    destruct (for_rows body (alter chunk) db) as [db' [u|e]]; [apply IH | done].
Qed.

Lemma for_rows_preserves {Row : Type} (P : Shelf → Prop)
    (body : Row → Shelf → Shelf * res unit) (rows : list Row) :
  (∀ row db, P db → P (body row db).1) →
  ∀ db, P db → P (for_rows body rows db).1.
Proof.
  intros Hbody. induction rows as [|row rows IH]; intros db Hdb; [done|].
  rewrite for_rows_cons. specialize (Hbody row db Hdb).
  destruct (body row db) as [db' [u|e]]; [by apply IH | done].
Qed.

Lemma Geonames_alter_data_app l1 l2 :
  Geonames.alter_data (l1 ++ l2)
  = Geonames.alter_data l1 ++ Geonames.alter_data l2.
Proof. unfold Geonames.alter_data. by rewrite filter_app, map_app, filter_app. Qed.

Lemma CountryAliases_alter_data_app l1 l2 :
  CountryAliases.alter_data (l1 ++ l2)
  = CountryAliases.alter_data l1 ++ CountryAliases.alter_data l2.
Proof. unfold CountryAliases.alter_data. by rewrite filter_app. Qed.

Lemma CountryCodes_alter_data_app l1 l2 :
  CountryCodes.alter_data (l1 ++ l2)
  = CountryCodes.alter_data l1 ++ CountryCodes.alter_data l2.
Proof. unfold CountryCodes.alter_data. by rewrite filter_app. Qed.

(** *** Stores that only improve *)

Lemma improves_refl (db : Shelf) : improves db db.
Proof. intros key e He. exists e. split; [done | apply at_least_refl]. Qed.

Lemma improves_trans (db1 db2 db3 : Shelf) :
  improves db1 db2 → improves db2 db3 → improves db1 db3.
Proof.
  intros H12 H23 key e He.
  destruct (H12 key e He) as (e2 & He2 & Hle2).
  destruct (H23 key e2 He2) as (e3 & He3 & Hle3).
  exists e3. split; [done | by eapply at_least_trans].
Qed.

Lemma improves_insert (db : Shelf) key r :
  (∀ old, db !! key = Some old → at_least r old) → improves db (<[key := r]> db).
Proof.
  intros Hr key' e He. destruct (decide (key = key')) as [<-|Hne].
  - exists r. rewrite lookup_insert_eq. split; [done | by apply Hr].
  - exists e. rewrite lookup_insert_ne by done. split; [done | apply at_least_refl].
Qed.

Lemma Geonames_store_improves (db : Shelf) name new_record :
  db_ranked db → ranked RH (tup new_record) →
  ∃ db',
    Geonames.store name new_record db = (db', Ok ())
    ∧ db_ranked db' ∧ improves db db'
    ∧ ∃ e, db' !! name = Some e ∧ at_least e (tup new_record).
Proof.
  intros Hdb Hnew. rewrite (Geonames_store_ranked db name new_record Hdb Hnew).
  destruct (db !! name) as [old|] eqn:Hold.
  - destruct (_ || _) eqn:Ebetter.
    + exists (<[name := tup new_record]> db). split; [done|].
      split; [by apply db_ranked_insert|]. split.
      * apply improves_insert. intros ? Ho. rewrite Hold in Ho. injection Ho as <-.
        unfold at_least. apply orb_true_iff in Ebetter.
        rewrite andb_true_iff in Ebetter. rewrite !Z.ltb_lt, Z.eqb_eq in Ebetter. lia.
      * exists (tup new_record). split; [apply lookup_insert_eq | apply at_least_refl].
    + exists db. split; [done|]. split; [done|]. split; [apply improves_refl|].
      exists old. split; [done|].
      unfold at_least. apply orb_false_iff in Ebetter as [E1 E2].
      rewrite andb_false_iff in E2. rewrite Z.ltb_ge in E1.
      rewrite Z.eqb_neq, Z.ltb_ge in E2. lia.
  - exists (<[name := tup new_record]> db). split; [done|].
    split; [by apply db_ranked_insert|]. split.
    + apply improves_insert. intros ? Ho. by rewrite Hold in Ho.
    + exists (tup new_record). split; [apply lookup_insert_eq | apply at_least_refl].
Qed.

Lemma Geonames_store_noop (db : Shelf) name new_record e :
  db_ranked db → ranked RH (tup new_record) →
  db !! name = Some e → at_least e (tup new_record) →
  Geonames.store name new_record db = (db, Ok ()).
Proof.
  intros Hdb Hnew He Hle.
  rewrite (Geonames_store_ranked db name new_record Hdb Hnew), He.
  destruct (_ || _) eqn:Ebetter; [|done]. exfalso.
  unfold at_least in Hle. apply orb_true_iff in Ebetter.
  rewrite andb_true_iff in Ebetter. rewrite !Z.ltb_lt, Z.eqb_eq in Ebetter. lia.
Qed.

Lemma Geonames_store_keeps_key (db : Shelf) name new_record key :
  is_Some (db !! key) → is_Some ((Geonames.store name new_record db).1 !! key).
Proof.
  intros Hkey. unfold Geonames.store.
  assert (is_Some (<[name := tup new_record]> db !! key)) as Hins.
  { apply lookup_insert_is_Some'. by right. }
  destruct (db !! name); [|done].
  destruct (relevance_choice_on _ _ _ _) as [chosen|e]; [|done].
  by destruct (py_is chosen new_record).
Qed.

Lemma criteria_ranked c : c ∈ Geonames.feature_classes_criteria → is_Some (RH !! c).
Proof.
  intros H. unfold Geonames.feature_classes_criteria in H.
  repeat (apply elem_of_cons in H as [->|H]; [by eexists|]).
  by apply elem_of_nil in H.
Qed.

Lemma Geonames_alter_data_altered data row :
  row ∈ Geonames.alter_data data → Geonames_altered row.
Proof.
  unfold Geonames.alter_data. intros H.
  apply list_elem_of_filter in H as [_ H].
  change (row ∈ Geonames.fillna <$>
            filter (fun row => Geonames.isin (Geonames.feature_class row)
                                 Geonames.feature_classes_criteria) data) in H.
  apply list_elem_of_fmap in H as (row0 & -> & H).
  apply list_elem_of_filter in H as [Hfc _].
  split; [|split; by eexists].
  destruct (Geonames.feature_class row0) as [c|] eqn:Efc; [|done].
  unfold Geonames.isin in Hfc.
  apply bool_decide_unpack in Hfc. apply criteria_ranked in Hfc as [n Hn].
  exists n. unfold hierarchy_get, feature_class.
  cbn [fst snd Geonames.feature_class Geonames.fillna]. by rewrite Efc, Hn.
Qed.

(** A loop of unconditional writes puts a fixed set of records over the
    store, whatever the store holds. *)
Lemma insert_rows_summary {Row : Type} (body : Row → Shelf → Shelf * res unit)
    (key : Row → option str) (record : Row → RecordT) :
  (∀ row (db : Shelf),
     body row db = match key row with
                   | Some k => (<[k := record row]> db, Ok ())
                   | None => (db, Raise AttributeError)
                   end) →
  ∀ rows : list Row,
  ∃ (writes : Shelf) o,
    (∀ db : Shelf, for_rows body rows db = (writes ∪ db, o))
    ∧ ((o = Ok () ∧ Forall (fun row => is_Some (key row)) rows)
       ∨ (o = Raise AttributeError ∧ ∃ row, row ∈ rows ∧ key row = None))
    ∧ (∀ k r, writes !! k = Some r → ∃ row, row ∈ rows ∧ r = record row).
Proof.
  intros Hbody rows. induction rows as [|row rows IH].
  - exists ∅, (Ok ()). split; [intros db; cbn; by rewrite (left_id_L ∅ (∪))|].
    split; [left; by split|]. intros k r. by rewrite lookup_empty.
  - destruct IH as (writes & o & Hrows & Hout & Hwrites).
    destruct (key row) as [k|] eqn:Hk.
    + exists (writes ∪ {[k := record row]}), o. split; [|split].
      * intros db. rewrite for_rows_cons, Hbody, Hk, Hrows.
        by rewrite insert_union_singleton_l, (assoc_L (∪)).
      * destruct Hout as [[-> Hall]|[-> (r & Hr & Hn)]].
        -- left. split; [done|]. constructor; [by rewrite Hk | done].
        -- right. split; [done|]. exists r. split; [by apply list_elem_of_further | done].
      * intros k' r Hl. apply lookup_union_Some_raw in Hl as [Hl|[_ Hl]].
        -- destruct (Hwrites k' r Hl) as (row' & Hin & ->).
           exists row'. split; [by apply list_elem_of_further | done].
        -- apply lookup_singleton_Some in Hl as [_ <-].
           exists row. split; [apply list_elem_of_here | done].
    + exists ∅, (Raise AttributeError). split; [|split].
      * intros db. by rewrite for_rows_cons, Hbody, Hk, (left_id_L ∅ (∪)).
      * right. split; [done|]. exists row. split; [apply list_elem_of_here | done].
      * intros k r. by rewrite lookup_empty.
Qed.

Lemma union_twice (writes db : Shelf) : writes ∪ (writes ∪ db) = writes ∪ db.
Proof. by rewrite (assoc_L (∪)), (idemp_L (∪)). Qed.

Lemma db_ranked_union (writes db : Shelf) :
  (∀ k r, writes !! k = Some r → feature_class r = Some "C") →
  db_ranked db → db_ranked (writes ∪ db).
Proof.
  intros Hw Hdb k r Hl. apply lookup_union_Some_raw in Hl as [Hl|[_ Hl]].
  - exists 0. by rewrite (Hw k r Hl).
  - by eapply Hdb.
Qed.

Section pushes.
Context {U : Unicode} {O : SetOrder}.

Lemma Geonames_push_rows (data : Payload Geonames.Row) (db : Shelf) :
  push (@Source Geonames.Row Geonames_class data) db
  = Geonames.push_data (Geonames.alter_data (payload_rows data)) db.
Proof.
  destruct data as [rows|chunks]; [done|].
  apply (for_rows_chunks Geonames.alter_data Geonames.push_row);
    [done | apply Geonames_alter_data_app].
Qed.

Lemma CountryAliases_push_rows (data : Payload CountryAliases.Row) (db : Shelf) :
  push (@Source CountryAliases.Row CountryAliases_class data) db
  = CountryAliases.push_data (CountryAliases.alter_data (payload_rows data)) db.
Proof.
  destruct data as [rows|chunks]; [done|].
  apply (for_rows_chunks CountryAliases.alter_data CountryAliases.push_row);
    [done | apply CountryAliases_alter_data_app].
Qed.

Lemma CountryCodes_push_rows (data : Payload CountryCodes.Row) (db : Shelf) :
  push (@Source CountryCodes.Row CountryCodes_class data) db
  = CountryCodes.push_data (CountryCodes.alter_data (payload_rows data)) db.
Proof.
  destruct data as [rows|chunks]; [done|].
  apply (for_rows_chunks CountryCodes.alter_data CountryCodes.push_row);
    [done | apply CountryCodes_alter_data_app].
Qed.

(** *** Place sources *)

(** The names of one row are visited in the order of the set: the names
    before a missing one are written, then the loop fails; pushed again
    into a store that improves on the result, the names write nothing and
    the loop ends the same way. *)
Lemma Geonames_push_names_summary new_record (names : list (option str)) :
  ranked RH (tup new_record) →
  ∀ db : Shelf, db_ranked db →
  ∃ db1 o1,
    for_rows (Geonames.push_name new_record) names db = (db1, o1)
    ∧ db_ranked db1 ∧ improves db db1
    ∧ ((o1 = Ok () ∧ None ∉ names) ∨ (o1 = Raise TypeError ∧ None ∈ names))
    ∧ ∀ db2 : Shelf, db_ranked db2 → improves db1 db2 →
                     for_rows (Geonames.push_name new_record) names db2 = (db2, o1).
Proof.
  intros Hnew. induction names as [|[s|] names IH]; intros db Hdb.
  - exists db, (Ok ()). split; [done|]. split; [done|]. split; [apply improves_refl|].
    split; [|done]. left. split; [done|]. apply not_elem_of_nil.
  - rewrite for_rows_cons. unfold Geonames.push_name at 1.
    destruct (PyStr.truthy (PyStr.strip (PyStr.lower s))) eqn:Ht.
    + destruct (Geonames_store_improves db (PyStr.strip (PyStr.lower s)) new_record
                  Hdb Hnew) as (dba & -> & Hdba & Himpa & e & He & Hle).
      destruct (IH dba Hdba) as (db1 & o1 & -> & Hdb1 & Himp1 & Hout & Hfix).
      exists db1, o1. split; [done|]. split; [done|].
      split; [by eapply improves_trans|]. split.
      * destruct Hout as [[-> Hno]|[-> Hin]]; [left | right]; (split; [done|]).
        -- rewrite elem_of_cons. by intros [?|?].
        -- by apply list_elem_of_further.
      * intros db2 Hdb2 Himp2. rewrite for_rows_cons. unfold Geonames.push_name at 1.
        rewrite Ht.
        destruct (Himp1 _ e He) as (e1 & He1 & Hle1).
        destruct (Himp2 _ e1 He1) as (e2 & He2 & Hle2).
        rewrite (Geonames_store_noop db2 _ new_record e2 Hdb2 Hnew He2).
        -- by apply Hfix.
        -- eapply at_least_trans; [exact Hle2|]. by eapply at_least_trans.
    + destruct (IH db Hdb) as (db1 & o1 & -> & Hdb1 & Himp1 & Hout & Hfix).
      exists db1, o1. split; [done|]. split; [done|]. split; [done|]. split.
      * destruct Hout as [[-> Hno]|[-> Hin]]; [left | right]; (split; [done|]).
        -- rewrite elem_of_cons. by intros [?|?].
        -- by apply list_elem_of_further.
      * intros db2 Hdb2 Himp2. rewrite for_rows_cons. unfold Geonames.push_name at 1.
        rewrite Ht. by apply Hfix.
  - exists db, (Raise TypeError). rewrite for_rows_cons. cbn [Geonames.push_name].
    split; [done|]. split; [done|]. split; [apply improves_refl|].
    split; [right; split; [done | apply list_elem_of_here]|].
    intros db2 _ _. by rewrite for_rows_cons.
Qed.

(** The names of an altered row: whatever the order of the set, a missing
    name is among them exactly when the row has no name. *)
Lemma Geonames_names_altered (row : Geonames.Row) :
  Geonames_altered row →
  ∃ names, Geonames.names row = Ok names ∧ (None ∈ names ↔ Geonames.name row = None).
Proof.
  intros (_ & [a Ha] & [alt Halt]). unfold Geonames.names. rewrite Halt, Ha.
  unfold PyStr.split. cbn [mbind res_bind].
  set (alts := PyStr.split_go "," alt [] 0).
  exists (set_iter (Geonames.name row :: Some a :: map Some alts)). split; [done|].
  rewrite set_iter_perm, elem_of_remove_dups, !elem_of_cons. split.
  - intros [?|[?|Hin]]; [done | done |].
    apply list_elem_of_In, in_map_iff in Hin as (? & ? & _). done.
  - intros ->. by left.
Qed.

(** A row without a name fails, any other altered row is written without
    error; pushed again into a ranked store that improves on the result,
    the row writes nothing and ends the same way. *)
Lemma Geonames_push_row_summary (row : Geonames.Row) (db : Shelf) :
  Geonames_altered row → db_ranked db →
  ∃ db1 o1,
    Geonames.push_row row db = (db1, o1)
    ∧ db_ranked db1 ∧ improves db db1
    ∧ ((o1 = Ok () ∧ is_Some (Geonames.name row))
       ∨ (o1 = Raise TypeError ∧ Geonames.name row = None))
    ∧ ∀ db2 : Shelf, db_ranked db2 → improves db1 db2 →
                     Geonames.push_row row db2 = (db2, o1).
Proof.
  intros Halt Hdb.
  destruct (Geonames_names_altered row Halt) as (names & Hnames & Hnone).
  pose proof Halt as (Hnew & _).
  unfold Geonames.push_row. rewrite Hnames.
  set (new_record := {| oid := 0; tup := _ |}) in *.
  destruct (Geonames_push_names_summary new_record names Hnew db Hdb)
    as (db1 & o1 & Hrows & Hdb1 & Himp & Hout & Hfix).
  exists db1, o1. split; [done|]. split; [done|]. split; [done|]. split; [|done].
  destruct Hout as [[-> Hno]|[-> Hin]]; [left | right]; (split; [done|]).
  - destruct (Geonames.name row); [by eexists|]. destruct Hno. by apply Hnone.
  - by apply Hnone.
Qed.

Lemma Geonames_push_data_summary (rows : list Geonames.Row) :
  Forall Geonames_altered rows →
  ∀ db : Shelf, db_ranked db →
  ∃ db1 o1,
    Geonames.push_data rows db = (db1, o1)
    ∧ db_ranked db1 ∧ improves db db1
    ∧ ((o1 = Ok () ∧ Forall (fun row => is_Some (Geonames.name row)) rows)
       ∨ (o1 = Raise TypeError ∧ ∃ row, row ∈ rows ∧ Geonames.name row = None))
    ∧ ∀ db2 : Shelf, db_ranked db2 → improves db1 db2 →
                     Geonames.push_data rows db2 = (db2, o1).
Proof.
  unfold Geonames.push_data.
  intros Hrows. induction Hrows as [|row rows Hrow Hrows IH]; intros db Hdb.
  - exists db, (Ok ()). split; [done|]. split; [done|]. split; [apply improves_refl|].
    split; [left; by split | done].
  - destruct (Geonames_push_row_summary row db Hrow Hdb)
      as (dba & oa & Hpush & Hdba & Himpa & Houta & Hnoop).
    destruct Houta as [[-> Hname]|[-> Hname]].
    + destruct (IH dba Hdba) as (db1 & o1 & Hrest & Hdb1 & Himp1 & Hout & Hfix).
      exists db1, o1. rewrite for_rows_cons, Hpush.
      split; [done|]. split; [done|]. split; [by eapply improves_trans|].
      split.
      * destruct Hout as [[-> Hall]|[-> (r & Hr & Hn)]].
        -- left. split; [done | by constructor].
        -- right. split; [done|]. exists r. split; [by apply list_elem_of_further | done].
      * intros db2 Hdb2 Himp2. rewrite for_rows_cons.
        rewrite (Hnoop db2 Hdb2) by (by eapply improves_trans).
        by apply Hfix.
    + exists dba, (Raise TypeError). rewrite for_rows_cons, Hpush.
      split; [done|]. split; [done|]. split; [done|].
      split.
      * right. split; [done|]. exists row. split; [apply list_elem_of_here | done].
      * intros db2 Hdb2 Himp2. by rewrite for_rows_cons, (Hnoop db2 Hdb2 Himp2).
Qed.

(** *** Country sources *)

Lemma CountryAliases_push_data_summary (rows : list CountryAliases.Row) :
  ∃ (writes : Shelf) o,
    (∀ db : Shelf, CountryAliases.push_data rows db = (writes ∪ db, o))
    ∧ ((o = Ok () ∧ Forall (fun row => is_Some (CountryAliases.Alias row)) rows)
       ∨ (o = Raise AttributeError
          ∧ ∃ row, row ∈ rows ∧ CountryAliases.Alias row = None))
    ∧ (∀ k r, writes !! k = Some r → feature_class r = Some "C").
Proof.
  destruct (insert_rows_summary CountryAliases.push_row
              (fun row => PyStr.lower <$> CountryAliases.Alias row)
              (fun row => (CountryAliases.iso3 row, Some "C", None))) with (rows := rows)
    as (writes & o & Hrows & Hout & Hwrites).
  { intros row db. unfold CountryAliases.push_row.
    by destruct (CountryAliases.Alias row). }
  exists writes, o. split; [done|]. split.
  - destruct Hout as [[-> Hall]|[-> (r & Hr & Hn)]].
    + left. split; [done|]. eapply Forall_impl; [exact Hall|].
      intros row. cbn. by destruct (CountryAliases.Alias row).
    + right. split; [done|]. exists r. split; [done|].
      by destruct (CountryAliases.Alias r).
  - intros k r Hl. by destruct (Hwrites k r Hl) as (row & _ & ->).
Qed.

Lemma CountryCodes_push_data_summary (rows : list CountryCodes.Row) :
  ∃ (writes : Shelf) o,
    (∀ db : Shelf, CountryCodes.push_data rows db = (writes ∪ db, o))
    ∧ ((o = Ok () ∧ Forall (fun row => is_Some (CountryCodes.alpha2 row)) rows)
       ∨ (o = Raise AttributeError
          ∧ ∃ row, row ∈ rows ∧ CountryCodes.alpha2 row = None))
    ∧ (∀ k r, writes !! k = Some r → feature_class r = Some "C").
Proof.
  destruct (insert_rows_summary CountryCodes.push_row
              (fun row => PyStr.upper <$> CountryCodes.alpha2 row)
              (fun row => (CountryCodes.alpha3 row, Some "C", None))) with (rows := rows)
    as (writes & o & Hrows & Hout & Hwrites).
  { intros row db. unfold CountryCodes.push_row.
    by destruct (CountryCodes.alpha2 row). }
  exists writes, o. split; [done|]. split.
  - destruct Hout as [[-> Hall]|[-> (r & Hr & Hn)]].
    + left. split; [done|]. eapply Forall_impl; [exact Hall|].
      intros row. cbn. by destruct (CountryCodes.alpha2 row).
    + right. split; [done|]. exists r. split; [done|].
      by destruct (CountryCodes.alpha2 r).
  - intros k r Hl. by destruct (Hwrites k r Hl) as (row & _ & ->).
Qed.

End pushes.

(** X6.  Reading a source in chunks changes nothing: for each of the three
    dataset classes, pushing the chunks one after the other gives the
    store and the outcome of pushing their concatenation as one frame. *)
Theorem push_chunks_as_frame {U : Unicode} {O : SetOrder} (db : Shelf) :
  (∀ chunks,
     push (@Source CountryAliases.Row CountryAliases_class (Chunks chunks)) db
     = push (@Source CountryAliases.Row CountryAliases_class (Frame (concat chunks))) db)
  ∧ (∀ chunks,
       push (@Source CountryCodes.Row CountryCodes_class (Chunks chunks)) db
       = push (@Source CountryCodes.Row CountryCodes_class (Frame (concat chunks))) db)
  ∧ (∀ chunks,
       push (@Source Geonames.Row Geonames_class (Chunks chunks)) db
       = push (@Source Geonames.Row Geonames_class (Frame (concat chunks))) db).
Proof.
  split; [|split]; intros chunks.
  - by rewrite !CountryAliases_push_rows.
  - by rewrite !CountryCodes_push_rows.
  - by rewrite !Geonames_push_rows.
Qed.

(** X7.  Pushing a source of any of the three dataset classes keeps the
    store ranked: every record written carries a feature class of the
    hierarchy, so the lookups of a store filled by such pushes from ranked
    contents never meet an unranked class. *)
Theorem push_keeps_ranked {U : Unicode} {O : SetOrder}
    (source : SourceDataset) (db : Shelf) :
  builtin source → db_ranked db → db_ranked (push source db).1.
Proof.
  intros [data|data|data] Hdb.
  - rewrite CountryAliases_push_rows.
    destruct (CountryAliases_push_data_summary
                (CountryAliases.alter_data (payload_rows data)))
      as (writes & o & -> & _ & Hw).
    by apply db_ranked_union.
  - rewrite CountryCodes_push_rows.
    destruct (CountryCodes_push_data_summary
                (CountryCodes.alter_data (payload_rows data)))
      as (writes & o & -> & _ & Hw).
    by apply db_ranked_union.
  - rewrite Geonames_push_rows.
    destruct (Geonames_push_data_summary (Geonames.alter_data (payload_rows data)))
      with (db := db) as (db1 & o1 & -> & Hdb1 & _); [|done|done].
    apply Forall_forall. intros row. apply Geonames_alter_data_altered.
Qed.

Lemma push_keeps_ranked_witness :
  db_ranked (push malformed_aliases_source (push codes_source ∅).1).1.
Proof.
  apply push_keeps_ranked; [constructor|].
  apply push_keeps_ranked; [constructor | apply db_ranked_empty].
Defined.

(** X8.  No push of the three dataset classes ever removes a key:
    whatever the store holds before a push it still holds a record under
    each of its keys afterwards, also when the push fails. *)
Theorem push_keeps_key {U : Unicode} {O : SetOrder}
    (source : SourceDataset) (db : Shelf) (key : str) :
  builtin source → is_Some (db !! key) → is_Some ((push source db).1 !! key).
Proof.
  intros [data|data|data] Hkey.
  - rewrite CountryAliases_push_rows.
    destruct (CountryAliases_push_data_summary
                (CountryAliases.alter_data (payload_rows data)))
      as (writes & o & -> & _). cbn [fst]. apply lookup_union_is_Some. by right.
  - rewrite CountryCodes_push_rows.
    destruct (CountryCodes_push_data_summary
                (CountryCodes.alter_data (payload_rows data)))
      as (writes & o & -> & _). cbn [fst]. apply lookup_union_is_Some. by right.
  - rewrite Geonames_push_rows. unfold Geonames.push_data.
    apply (for_rows_preserves (fun db => is_Some (db !! key))); [|done].
    intros row db' Hdb'. unfold Geonames.push_row.
    destruct (Geonames.names row) as [names|e]; [|done].
    apply (for_rows_preserves (fun db => is_Some (db !! key))); [|done].
    intros [s|] db2 Hdb2; [|done]. unfold Geonames.push_name.
    destruct (PyStr.truthy _); [|done]. by apply Geonames_store_keeps_key.
Qed.

Lemma push_keeps_key_witness :
  is_Some ((push malformed_aliases_source example_db).1 !! "springfield").
Proof.
  apply push_keeps_key; [constructor | by eexists].
Defined.

(** X9.  On a ranked store, pushing a place source only improves the
    store: every key keeps a record, and the record it holds afterwards
    is at least as good (smaller rank, or equal rank and no smaller
    population) as the one it held before. *)
Theorem Geonames_push_improves {U : Unicode} {O : SetOrder}
    (data : Payload Geonames.Row) (db : Shelf) :
  db_ranked db →
  improves db (push (@Source Geonames.Row Geonames_class data) db).1.
Proof.
  intros Hdb. rewrite Geonames_push_rows.
  destruct (Geonames_push_data_summary (Geonames.alter_data (payload_rows data)))
    with (db := db) as (db1 & o1 & -> & _ & Himp & _); [|done|done].
  apply Forall_forall. intros row. apply Geonames_alter_data_altered.
Qed.

Lemma Geonames_push_improves_witness :
  improves example_db
    (push (@Source Geonames.Row Geonames_class
             (Frame [{| Geonames.name := Some "Springfield";
                        Geonames.asciiname := None;
                        Geonames.alternatenames := Some "America";
                        Geonames.feature_class := Some "P";
                        Geonames.country_code := Some "CA";
                        Geonames.population := Some 9000 |}])) example_db).1.
Proof. apply Geonames_push_improves, example_db_ranked. Defined.

(** X10.  On a ranked store a push of a place source fails only on a
    kept row without a name, with [TypeError]: it succeeds exactly when
    every row that [alter_data] keeps has a name, and [relevance_choice]
    never raises during the push. *)
Theorem Geonames_push_outcome {U : Unicode} {O : SetOrder}
    (data : Payload Geonames.Row) (db : Shelf) :
  db_ranked db →
  ((push (@Source Geonames.Row Geonames_class data) db).2 = Ok ()
   ↔ ∀ row, row ∈ Geonames.alter_data (payload_rows data) →
            is_Some (Geonames.name row))
  ∧ ((push (@Source Geonames.Row Geonames_class data) db).2 = Ok ()
     ∨ (push (@Source Geonames.Row Geonames_class data) db).2 = Raise TypeError).
Proof.
  intros Hdb. rewrite Geonames_push_rows.
  destruct (Geonames_push_data_summary (Geonames.alter_data (payload_rows data)))
    with (db := db) as (db1 & o1 & -> & _ & _ & Hout & _); [|done|].
  { apply Forall_forall. intros row. apply Geonames_alter_data_altered. }
  cbn [snd]. destruct Hout as [[-> Hall]|[-> (row & Hrow & Hn)]].
  - split; [|by left]. split; [|done]. intros _ row Hrow.
    by apply (proj1 (Forall_forall _ _) Hall).
  - split; [|by right]. split; [done|]. intros Hall.
    specialize (Hall row Hrow). rewrite Hn in Hall. by destruct Hall.
Qed.

Lemma Geonames_push_outcome_witness :
  (push (@Source Geonames.Row Geonames_class
           (Frame [{| Geonames.name := None;
                      Geonames.asciiname := Some "Springfield";
                      Geonames.alternatenames := None;
                      Geonames.feature_class := Some "P";
                      Geonames.country_code := Some "US";
                      Geonames.population := None |}])) example_db).2
  = Raise TypeError.
Proof.
  destruct (Geonames_push_outcome
              (Frame [{| Geonames.name := None;
                         Geonames.asciiname := Some "Springfield";
                         Geonames.alternatenames := None;
                         Geonames.feature_class := Some "P";
                         Geonames.country_code := Some "US";
                         Geonames.population := None |}]) example_db
              example_db_ranked) as [Hiff [Hok|Hraise]]; [|exact Hraise].
  pose proof (proj1 Hiff Hok _ (list_elem_of_here _ _)) as [n Hn].
  discriminate Hn.
Defined.

(** X11.  A push of a country-code source never raises, whatever its rows
    and the store; a push of a country-alias source raises, with
    [AttributeError], exactly when a row that has an ISO3 code lacks its
    alias. *)
Theorem country_push_outcome {U : Unicode} (db : Shelf) :
  (∀ data, (push (@Source CountryCodes.Row CountryCodes_class data) db).2 = Ok ())
  ∧ (∀ data,
       ((push (@Source CountryAliases.Row CountryAliases_class data) db).2 = Ok ()
        ↔ ∀ row, row ∈ payload_rows data →
                 is_Some (CountryAliases.iso3 row) →
                 is_Some (CountryAliases.Alias row))
       ∧ ((push (@Source CountryAliases.Row CountryAliases_class data) db).2 = Ok ()
          ∨ (push (@Source CountryAliases.Row CountryAliases_class data) db).2
            = Raise AttributeError)).
Proof.
  split; intros data.
  - rewrite CountryCodes_push_rows.
    destruct (CountryCodes_push_data_summary
                (CountryCodes.alter_data (payload_rows data)))
      as (writes & o & -> & Hout & _). cbn [snd].
    destruct Hout as [[-> _]|[-> (row & Hrow & Hn)]]; [done|]. exfalso.
    apply list_elem_of_filter in Hrow as [Hsome _]. rewrite Hn in Hsome.
    by destruct Hsome.
  - rewrite CountryAliases_push_rows.
    destruct (CountryAliases_push_data_summary
                (CountryAliases.alter_data (payload_rows data)))
      as (writes & o & -> & Hout & _). cbn [snd].
    destruct Hout as [[-> Hall]|[-> (row & Hrow & Hn)]].
    + split; [|by left]. split; [|done]. intros _ row Hrow Hiso.
      apply (proj1 (Forall_forall _ _) Hall). by apply list_elem_of_filter.
    + split; [|by right]. split; [done|]. intros Hall.
      apply list_elem_of_filter in Hrow as [Hiso Hrow].
      specialize (Hall row Hrow Hiso). rewrite Hn in Hall. by destruct Hall.
Qed.

Lemma country_push_outcome_witness :
  (push malformed_aliases_source example_db).2 = Raise AttributeError.
Proof.
  destruct (country_push_outcome example_db) as [_ H].
  destruct (H (Frame [{| CountryAliases.iso3 := Some "USA";
                         CountryAliases.Alias := None |}])) as [Hiff [Hok|Hraise]];
    [|exact Hraise].
  pose proof (proj1 Hiff Hok _ (list_elem_of_here _ _) ltac:(by eexists)) as [a Ha].
  discriminate Ha.
Defined.

(** X12.  A source read whole keeps its altered frame and can be pushed
    again; pushing it into the store its own push has produced changes
    nothing: for the country sources on any store, for a place source on a
    ranked store, the second push returns the same store and the same
    outcome as the first. *)
Theorem push_idempotent {U : Unicode} {O : SetOrder}
    (source : SourceDataset) (db : Shelf) :
  builtin source → iterates source = false → db_ranked db →
  push source (push source db).1 = push source db.
Proof.
  intros [data|data|data] _ Hdb.
  - rewrite !CountryAliases_push_rows.
    destruct (CountryAliases_push_data_summary
                (CountryAliases.alter_data (payload_rows data)))
      as (writes & o & Hpush & _).
    rewrite !Hpush. cbn [fst]. by rewrite union_twice.
  - rewrite !CountryCodes_push_rows.
    destruct (CountryCodes_push_data_summary
                (CountryCodes.alter_data (payload_rows data)))
      as (writes & o & Hpush & _).
    rewrite !Hpush. cbn [fst]. by rewrite union_twice.
  - rewrite !Geonames_push_rows.
    destruct (Geonames_push_data_summary (Geonames.alter_data (payload_rows data)))
      with (db := db) as (db1 & o1 & Hpush & Hdb1 & _ & _ & Hfix); [|done|].
    { apply Forall_forall. intros row. apply Geonames_alter_data_altered. }
    rewrite Hpush. cbn [fst]. apply Hfix; [done | apply improves_refl].
Qed.

Lemma push_idempotent_witness :
  push codes_source (push codes_source example_db).1 = push codes_source example_db.
Proof.
  apply push_idempotent; [constructor | reflexivity | apply example_db_ranked].
Defined.

(** ** More on the normalizer *)

Lemma relevance_choice_operand a b r :
  relevance_choice a b = Ok r → r = a ∨ r = b.
Proof.
  unfold relevance_choice, relevance_choice_in, relevance_choice_on, id.
  destruct (bool_decide (b = NOT_FOUND)); [intros [= <-]; by left|].
  destruct (bool_decide (a = NOT_FOUND)); [intros [= <-]; by right|].
  destruct (hierarchy_get RH (feature_class a)) as [h1|e1] eqn:E1; [|done].
  destruct (hierarchy_get RH (feature_class b)) as [h2|e2] eqn:E2; [|done].
  cbn [mbind res_bind]. destruct (h1 =? h2).
  - unfold py_max2. destruct (_ <? _); intros [= <-]; [by right | by left].
  - unfold py_min2. rewrite E1, E2. cbn [mbind res_bind].
    destruct (_ <? _); intros [= <-]; [by right | by left].
Qed.

Lemma relevance_choice_idem a : foldable a → relevance_choice a a = Ok a.
Proof.
  intros [->|Ha]; [apply relevance_choice_NOT_FOUND_r|].
  rewrite (relevance_choice_ranked_eq a a Ha Ha).
  by rewrite !Z.ltb_irrefl, andb_false_r.
Qed.

Lemma count_hits_empty_blacklist words : count_hits [] words = 0.
Proof. induction words as [|w words IH]; [done|]. cbn [count_hits]. by rewrite IH. Qed.

Section normalizer_props.
Context {U : Unicode}.

(** X13.  With a negative tolerance the normalizer answers [NOT_FOUND]
    for every location and blacklist, without looking anything up: the
    first strategy stops before its first token and counts as exceeded. *)
Theorem negative_tolerance (db : Shelf) (location : str)
    (blacklist : _BlackListT) (tolerance : Z) :
  tolerance < 0 →
  _normalize_location db location blacklist tolerance = Ok NOT_FOUND.
Proof.
  intros Hneg. unfold _normalize_location.
  destruct (PyStr.truthy _); [|done].
  unfold CONTENT_SEPARATORS. rewrite _normalize_location_seps_cons.
  unfold _normalize_location_impl, PyStr.split. cbn [mbind res_bind].
  rewrite _normalize_location_words_stop by done. cbn [mbind res_bind].
  by rewrite (proj2 (Z.ltb_lt tolerance 0)).
Qed.

Lemma _normalize_location_words_provenance (db : Shelf) blacklist tolerance words :
  ∀ result hits r n,
    _normalize_location_words db blacklist tolerance words result hits = Ok (r, n) →
    r = result
    ∨ ∃ w, w ∈ words ∧ r = GeoNameBase.search db (_transform_word_to_query w).
Proof.
  induction words as [|word words IH]; intros result hits r n; cbn.
  - intros [= <- _]. by left.
  - destruct (tolerance <? hits); [intros [= <- _]; by left|].
    destruct (PyStr.truthy _).
    + destruct (relevance_choice _ _) as [r'|e] eqn:Hrc; cbn [mbind res_bind]; [|done].
      intros Hrest. apply relevance_choice_operand in Hrc.
      destruct (IH _ _ _ _ Hrest) as [->|(w & Hw & ->)].
      * destruct Hrc as [->| ->]; [by left|]. right. exists word.
        split; [apply list_elem_of_here | done].
      * right. exists w. split; [by apply list_elem_of_further | done].
    + intros Hrest. destruct (IH _ _ _ _ Hrest) as [->|(w & Hw & ->)]; [by left|].
      right. exists w. split; [by apply list_elem_of_further | done].
Qed.

Lemma _normalize_location_seps_provenance (db : Shelf) location blacklist tolerance seps :
  ∀ result r,
    _normalize_location_seps db location blacklist tolerance seps result = Ok r →
    r = result
    ∨ ∃ sep words w,
        sep ∈ seps ∧ PyStr.split location sep = Ok words
        ∧ w ∈ map PyStr.strip words
        ∧ r = GeoNameBase.search db (_transform_word_to_query w).
Proof.
  induction seps as [|sep seps IH]; intros result r.
  - intros [= <-]. by left.
  - rewrite _normalize_location_seps_cons. unfold _normalize_location_impl.
    destruct (PyStr.split location sep) as [words|e] eqn:Hsplit;
      cbn [mbind res_bind]; [|done].
    destruct (_normalize_location_words _ _ _ _ _ _) as [[normalized hits]|e] eqn:Hwords;
      cbn [mbind res_bind]; [|done].
    destruct (tolerance <? hits); [intros [= <-]; by left|].
    intros Hrest.
    destruct (IH _ _ Hrest) as [->|(sep' & words' & w & Hsep & Hsp & Hw & ->)].
    + apply _normalize_location_words_provenance in Hwords as [->|(w & Hw & ->)];
        [by left|].
      right. exists sep, words, w. split; [apply list_elem_of_here | done].
    + right. exists sep', words', w. split; [by apply list_elem_of_further | done].
Qed.

(** X14.  The normalizer never makes up a record: what it returns is
    [NOT_FOUND] or the very record [search] gives for the query of one
    token of one of the five separator strategies. *)
Theorem normalize_provenance (db : Shelf) (location : str)
    (blacklist : _BlackListT) (tolerance : Z) (r : RecordT) :
  _normalize_location db location blacklist tolerance = Ok r →
  r = NOT_FOUND
  ∨ ∃ sep words w,
      sep ∈ CONTENT_SEPARATORS
      ∧ PyStr.split (PyStr.collapse location) sep = Ok words
      ∧ w ∈ map PyStr.strip words
      ∧ r = GeoNameBase.search db (_transform_word_to_query w).
Proof.
  unfold _normalize_location. fold (PyStr.collapse location).
  destruct (PyStr.truthy _); [|intros [= <-]; by left].
  apply _normalize_location_seps_provenance.
Qed.

Lemma _normalize_location_words_no_hits (db : Shelf) tolerance words result r n :
  0 ≤ tolerance →
  _normalize_location_words db [] tolerance words result 0 = Ok (r, n) → n = 0.
Proof.
  intros Htol Hwords.
  pose proof (_normalize_location_words_absorbed db [] tolerance words result 0 0) as H.
  rewrite count_hits_empty_blacklist, Hwords in H. cbn [mbind res_bind] in H.
  specialize (H ltac:(lia) Htol). by injection H.
Qed.

Lemma _normalize_location_seps_within (db : Shelf) location blacklist tolerance seps :
  (∀ sep words, sep ∈ seps → PyStr.split location sep = Ok words →
                count_hits blacklist (map PyStr.strip words) ≤ tolerance) →
  ∀ result,
    _normalize_location_seps db location blacklist tolerance seps result
    = _normalize_location_seps db location [] tolerance seps result.
Proof.
  induction seps as [|sep seps IH]; intros Hcount result; [done|].
  rewrite !_normalize_location_seps_cons.
  destruct (PyStr.split location sep) as [words|e] eqn:Hsplit.
  2:{ unfold _normalize_location_impl. by rewrite Hsplit. }
  assert (count_hits blacklist (map PyStr.strip words) ≤ tolerance) as Hle.
  { apply (Hcount sep words); [apply list_elem_of_here | done]. }
  pose proof (count_hits_nonneg blacklist (map PyStr.strip words)) as Hnn.
  unfold _normalize_location_impl. rewrite Hsplit. cbn [mbind res_bind].
  rewrite (_normalize_location_words_absorbed db blacklist tolerance
             (map PyStr.strip words) result 0 0) by lia.
  destruct (_normalize_location_words db [] tolerance (map PyStr.strip words) result 0)
    as [[normalized hits]|e] eqn:Hwords; cbn [mbind res_bind fst]; [|done].
  apply _normalize_location_words_no_hits in Hwords as ->; [|lia].
  rewrite (proj2 (Z.ltb_ge tolerance _)) by lia.
  rewrite (proj2 (Z.ltb_ge tolerance 0)) by lia.
  apply IH. intros sep' words' Hsep'. apply Hcount. by apply list_elem_of_further.
Qed.

(** X15.  A blacklist whose hits stay within the tolerance in each of the
    five strategies has no effect: the normalizer returns what it returns
    with an empty blacklist. *)
Theorem blacklist_within_tolerance (db : Shelf) (location : str)
    (blacklist : _BlackListT) (tolerance : Z) :
  (∀ sep words,
     sep ∈ CONTENT_SEPARATORS →
     PyStr.split (PyStr.collapse location) sep = Ok words →
     count_hits blacklist (map PyStr.strip words) ≤ tolerance) →
  _normalize_location db location blacklist tolerance
  = _normalize_location db location [] tolerance.
Proof.
  intros Hcount. unfold _normalize_location. fold (PyStr.collapse location).
  destruct (PyStr.truthy _); [|done].
  by apply _normalize_location_seps_within.
Qed.

(** One strategy on a location in which its separator does not occur. *)
Lemma _normalize_location_impl_unseparated (db : Shelf) location blacklist tolerance
    result sep :
  sep ≠ [] → occurs sep location = false →
  (if blacklisted blacklist (PyStr.strip location) then 1 else 0) ≤ tolerance →
  _normalize_location_impl db location blacklist tolerance result sep =
    (let query := _transform_word_to_query (PyStr.strip location) in
     r ← (if PyStr.truthy query
          then relevance_choice result (GeoNameBase.search db query)
          else Ok result);
     Ok (r, if blacklisted blacklist (PyStr.strip location) then 1 else 0)).
Proof.
  intros Hsep Hocc Htol. unfold _normalize_location_impl.
  rewrite (split_no_occurrence sep location Hsep Hocc). cbn [mbind res_bind map].
  cbn [_normalize_location_words]. fold (blacklisted blacklist (PyStr.strip location)).
  rewrite (proj2 (Z.ltb_ge tolerance 0))
    by (destruct (blacklisted blacklist (PyStr.strip location)); lia).
  rewrite Z.add_0_l.
  destruct (PyStr.truthy _); [|done].
  by destruct (relevance_choice _ _).
Qed.

Lemma _normalize_location_seps_unseparated (db : Shelf) location blacklist tolerance seps :
  case_stable → db_ranked db →
  Forall (fun sep => sep ≠ [] ∧ occurs sep location = false) seps →
  (if blacklisted blacklist (PyStr.strip location) then 1 else 0) ≤ tolerance →
  ∀ result,
    result = NOT_FOUND
    ∨ result = GeoNameBase.search db (_transform_word_to_query (PyStr.strip location)) →
    _normalize_location_seps db location blacklist tolerance seps result =
      Ok (match seps with
          | [] => result
          | _ => if PyStr.truthy (_transform_word_to_query (PyStr.strip location))
                 then GeoNameBase.search db
                        (_transform_word_to_query (PyStr.strip location))
                 else result
          end).
Proof.
  intros Hstable Hdb Hseps Htol.
  induction Hseps as [|sep seps [Hsep Hocc] Hseps IH]; intros result Hres; [done|].
  rewrite _normalize_location_seps_cons.
  rewrite (_normalize_location_impl_unseparated db location blacklist tolerance
             result sep Hsep Hocc Htol). cbn zeta.
  set (query := _transform_word_to_query (PyStr.strip location)) in *.
  assert (foldable (GeoNameBase.search db query)) as Hfound
      by (by apply search_lowered_foldable).
  destruct (PyStr.truthy query) eqn:Hq.
  - assert (relevance_choice result (GeoNameBase.search db query)
            = Ok (GeoNameBase.search db query)) as ->.
    { destruct Hres as [->| ->];
        [apply relevance_choice_NOT_FOUND_l | by apply relevance_choice_idem]. }
    cbn [mbind res_bind]. rewrite (proj2 (Z.ltb_ge tolerance _)) by done.
    rewrite IH by (by right). by destruct seps.
  - cbn [mbind res_bind]. rewrite (proj2 (Z.ltb_ge tolerance _)) by done.
    rewrite IH by done. by destruct seps.
Qed.

(** X16.  On a ranked store, a location in which none of the five
    separators occurs is looked up as one token: when its hit, if any,
    is within the tolerance, the answer is what [search] gives for the
    query of the whole whitespace-collapsed location ([NOT_FOUND] when
    that query is empty).  The database is any whose case mapping is
    stable on lower-cased text. *)
Theorem normalize_unseparated (db : Shelf) (location : str)
    (blacklist : _BlackListT) (tolerance : Z) :
  case_stable → db_ranked db →
  PyStr.truthy (PyStr.collapse location) = true →
  (∀ sep, sep ∈ CONTENT_SEPARATORS → occurs sep (PyStr.collapse location) = false) →
  (if blacklisted blacklist (PyStr.strip (PyStr.collapse location)) then 1 else 0)
    ≤ tolerance →
  _normalize_location db location blacklist tolerance =
    Ok (let query := _transform_word_to_query (PyStr.strip (PyStr.collapse location)) in
        if PyStr.truthy query then GeoNameBase.search db query else NOT_FOUND).
Proof.
  intros Hstable Hdb Htruthy Hocc Htol. unfold _normalize_location.
  fold (PyStr.collapse location). rewrite Htruthy.
  rewrite (_normalize_location_seps_unseparated db (PyStr.collapse location)
             blacklist tolerance CONTENT_SEPARATORS Hstable Hdb);
    [done | | done | by left].
  apply Forall_forall. intros sep Hsep. split; [|by apply Hocc].
  unfold CONTENT_SEPARATORS in Hsep.
  repeat (apply elem_of_cons in Hsep as [->|Hsep]; [done|]).
  by apply elem_of_nil in Hsep.
Qed.

End normalizer_props.

Lemma negative_tolerance_witness :
  _normalize_location example_db "Springfield, America" [] (-1) = Ok NOT_FOUND.
Proof. apply negative_tolerance. lia. Defined.

Lemma normalize_provenance_witness :
  (Some "USA", Some "C", None) = NOT_FOUND
  ∨ ∃ sep words w,
      sep ∈ CONTENT_SEPARATORS
      ∧ PyStr.split (PyStr.collapse "Springfield, America") sep = Ok words
      ∧ w ∈ map PyStr.strip words
      ∧ (Some "USA", Some "C", None)
        = GeoNameBase.search example_db (_transform_word_to_query w).
Proof.
  apply (normalize_provenance example_db "Springfield, America" [] 0). reflexivity.
Defined.

Lemma blacklist_within_tolerance_witness :
  _normalize_location example_db "Springfield, spam, America" spam_blacklist 1
  = _normalize_location example_db "Springfield, spam, America" [] 1.
Proof.
  apply blacklist_within_tolerance. intros sep words Hsep Hsplit.
  unfold CONTENT_SEPARATORS in Hsep.
  repeat (apply elem_of_cons in Hsep as [->|Hsep];
          [vm_compute in Hsplit; injection Hsplit as <-; by vm_compute|]).
  by apply elem_of_nil in Hsep.
Defined.

Lemma normalize_unseparated_witness :
  _normalize_location example_db "  Springfield " spam_blacklist 0
  = Ok (Some "USA", Some "P", Some 5000).
Proof.
  rewrite (normalize_unseparated example_db "  Springfield " spam_blacklist 0).
  - by vm_compute.
  - apply ASCII_case_stable.
  - apply example_db_ranked.
  - reflexivity.
  - intros sep Hsep. unfold CONTENT_SEPARATORS in Hsep.
    repeat (apply elem_of_cons in Hsep as [->|Hsep]; [reflexivity|]).
    by apply elem_of_nil in Hsep.
  - by vm_compute.
Defined.

(** ** What [search] finds after a country row is written *)

Section country_rows.
Context {U : Unicode}.

(** X21.  After a country-alias row is written, [search] finds the country
    under every input whose key is the lower-cased alias: it returns the
    ISO3 code with the Country class, provided the code does not have two
    characters and no elevation of the key applies. *)
Theorem alias_lookup (db : Shelf) (row : CountryAliases.Row) (alias code geoname : str) :
  CountryAliases.Alias row = Some alias →
  CountryAliases.iso3 row = Some code →
  length code ≠ 2%nat →
  GeoNameBase.search_key geoname = PyStr.lower alias →
  length (PyStr.lower alias) ≠ 2%nat ∨ PyStr.isupper geoname = false →
  GeoNameBase.search (CountryAliases.push_row row db).1 geoname
  = (Some code, Some "C", None).
Proof.
  intros Halias Hiso Hcode Hkey Hno.
  unfold CountryAliases.push_row. rewrite Halias, Hiso. cbn [fst].
  unfold GeoNameBase.search, db_get. rewrite Hkey, lookup_insert_eq.
  unfold GeoNameBase.search_alpha2.
  rewrite (proj2 (Nat.eqb_neq _ _) Hcode).
  assert ((length (PyStr.lower alias) =? 2)%nat && PyStr.isupper geoname = false)
    as ->; [|done].
  destruct Hno as [Hlen| ->]; [|apply andb_false_r].
  by rewrite (proj2 (Nat.eqb_neq _ _) Hlen).
Qed.

(** X22.  After a country-code row is written, every record of the store
    whose country is that alpha-2 code, in whatever case, is reported by
    [search] with the row's alpha-3 code in its place, its feature class
    and population unchanged. *)
Theorem code_elevation (db : Shelf) (row : CountryCodes.Row) (a2 cc geoname : str)
    (f : option str) (p : option Z) :
  CountryCodes.alpha2 row = Some a2 →
  db_get (CountryCodes.push_row row db).1 (GeoNameBase.search_key geoname)
    GeoNameBase.MISSING = (Some cc, f, p) →
  length cc = 2%nat →
  PyStr.upper cc = PyStr.upper a2 →
  GeoNameBase.search (CountryCodes.push_row row db).1 geoname
  = (CountryCodes.alpha3 row, f, p).
Proof.
  intros Ha2 Hrec Hlen Hcc. revert Hrec.
  unfold CountryCodes.push_row. rewrite Ha2. cbn [fst]. intros Hrec.
  unfold GeoNameBase.search. rewrite Hrec.
  unfold GeoNameBase.search_alpha2.
  rewrite (proj2 (Nat.eqb_eq _ _) Hlen), (truthy_upper_2 cc Hlen).
  unfold db_get. by rewrite Hcc, lookup_insert_eq.
Qed.

End country_rows.

Lemma alias_lookup_witness :
  GeoNameBase.search
    (CountryAliases.push_row
       {| CountryAliases.iso3 := Some "GBR"; CountryAliases.Alias := Some "Great Britain" |}
       example_db).1 "  great   BRITAIN "
  = (Some "GBR", Some "C", None).
Proof.
  apply (alias_lookup example_db _ "Great Britain" "GBR");
    [reflexivity | reflexivity | by vm_compute | reflexivity | left; by vm_compute].
Defined.

Lemma code_elevation_witness :
  GeoNameBase.search
    (CountryCodes.push_row
       {| CountryCodes.alpha2 := Some "ca"; CountryCodes.alpha3 := Some "CAN" |}
       (<["toronto" := (Some "CA", Some "P", Some 2600000)]> ∅)).1 "Toronto"
  = (Some "CAN", Some "P", Some 2600000).
Proof.
  apply (code_elevation (<["toronto" := (Some "CA", Some "P", Some 2600000)]> ∅)
           {| CountryCodes.alpha2 := Some "ca"; CountryCodes.alpha3 := Some "CAN" |}
           "ca" "CA" "Toronto" (Some "P") (Some 2600000)); reflexivity.
Defined.

(** ** Locations *)

Section locations.
Context {U : Unicode}.

Lemma split_ws_go_cons c (s : str) cur :
  PyStr.split_ws_go (c :: s) cur =
    if char_isspace c then
      match cur with
      | Some w => w :: PyStr.split_ws_go s None
      | None => PyStr.split_ws_go s None
      end
    else PyStr.split_ws_go s (Some (match cur with
                                    | Some w => w ++ [c]
                                    | None => [c]
                                    end)).
Proof. reflexivity. Qed.

Lemma split_ws_lstrip (s : str) : PyStr.split_ws (PyStr.lstrip s) = PyStr.split_ws s.
Proof.
  unfold PyStr.split_ws. induction s as [|c s IH]; [done|].
  cbn [PyStr.lstrip]. rewrite (split_ws_go_cons c s None).
  destruct (char_isspace c) eqn:Hc; [done|]. by rewrite split_ws_go_cons, Hc.
Qed.

Lemma rstrip_empty_cons c (s : str) :
  PyStr.rstrip (c :: s) = [] → char_isspace c = true ∧ PyStr.rstrip s = [].
Proof.
  cbn [PyStr.rstrip]. destruct (PyStr.rstrip s); [|done].
  by destruct (char_isspace c).
Qed.

Lemma split_ws_go_blank (s : str) :
  PyStr.rstrip s = [] →
  ∀ cur, PyStr.split_ws_go s cur = match cur with Some w => [w] | None => [] end.
Proof.
  induction s as [|c s IH]; intros Hr cur; [done|].
  apply rstrip_empty_cons in Hr as [Hc Hr].
  rewrite split_ws_go_cons, Hc, (IH Hr None). by destruct cur.
Qed.

Lemma split_ws_go_rstrip (s : str) :
  ∀ cur, PyStr.split_ws_go (PyStr.rstrip s) cur = PyStr.split_ws_go s cur.
Proof.
  induction s as [|c s IH]; intros cur; [done|].
  cbn [PyStr.rstrip]. destruct (PyStr.rstrip s) as [|d t] eqn:Hr.
  - rewrite (split_ws_go_cons c s), !(split_ws_go_blank s Hr).
    destruct (char_isspace c) eqn:Hc; [by destruct cur|].
    by rewrite split_ws_go_cons, Hc.
  - rewrite (split_ws_go_cons c (d :: t)), (split_ws_go_cons c s), !IH. done.
Qed.

Lemma split_ws_strip (s : str) : PyStr.split_ws (PyStr.strip s) = PyStr.split_ws s.
Proof.
  unfold PyStr.strip, PyStr.split_ws at 1.
  rewrite split_ws_go_rstrip. apply split_ws_lstrip.
Qed.

Lemma split_ws_go_words (s : str) :
  ∀ cur, (∀ u, cur = Some u → is_word u) → Forall is_word (PyStr.split_ws_go s cur).
Proof.
  induction s as [|c s IH]; intros cur Hcur.
  - destruct cur as [u|]; [|constructor]. constructor; [by apply Hcur | constructor].
  - rewrite split_ws_go_cons. destruct (char_isspace c) eqn:Hc.
    + destruct cur as [u|]; [constructor; [by apply Hcur|]|]; by apply IH.
    + apply IH. intros u [= <-]. destruct cur as [w|].
      * destruct (Hcur w eq_refl) as [_ Hw]. split; [by destruct w|].
        rewrite forallb_app, Hw. cbn. by rewrite Hc.
      * split; [done|]. cbn. by rewrite Hc.
Qed.

Lemma split_ws_go_word_some (w : str) :
  forallb (fun c => negb (char_isspace c)) w = true →
  ∀ u rest, PyStr.split_ws_go (w ++ rest) (Some u)
            = PyStr.split_ws_go rest (Some (u ++ w)).
Proof.
  induction w as [|c w IH]; intros Hw u rest.
  - by rewrite app_nil_r.
  - cbn [forallb] in Hw. apply andb_true_iff in Hw as [Hc Hw].
    apply negb_true_iff in Hc.
    rewrite <- app_comm_cons, split_ws_go_cons, Hc, (IH Hw).
    by rewrite <- app_assoc.
Qed.

Lemma split_ws_go_word_none (w rest : str) :
  is_word w → PyStr.split_ws_go (w ++ rest) None = PyStr.split_ws_go rest (Some w).
Proof.
  intros [Hne Hw]. destruct w as [|c w]; [done|].
  cbn [forallb] in Hw. apply andb_true_iff in Hw as [Hc Hw].
  apply negb_true_iff in Hc.
  rewrite <- app_comm_cons, split_ws_go_cons, Hc.
  by rewrite (split_ws_go_word_some w Hw).
Qed.

(** Splitting what [" ".join] has joined gives the words back. *)
Lemma split_ws_join (words : list str) :
  Forall is_word words → PyStr.split_ws (PyStr.join " " words) = words.
Proof.
  unfold PyStr.split_ws.
  induction 1 as [|w words Hw Hwords IH]; [done|].
  destruct words as [|w2 words].
  - cbn [PyStr.join].
    transitivity (PyStr.split_ws_go (w ++ []) None); [by rewrite app_nil_r|].
    by rewrite (split_ws_go_word_none w [] Hw).
  - change (PyStr.join " " (w :: w2 :: words))
      with (w ++ 32%N :: PyStr.join " " (w2 :: words)).
    rewrite (split_ws_go_word_none w _ Hw), split_ws_go_cons.
    rewrite char_isspace_space. by rewrite IH.
Qed.

Lemma collapse_words (s : str) : PyStr.collapse s = PyStr.join " " (PyStr.split_ws s).
Proof. unfold PyStr.collapse. by rewrite split_ws_strip. Qed.

Lemma collapse_idem (s : str) : PyStr.collapse (PyStr.collapse s) = PyStr.collapse s.
Proof.
  rewrite (collapse_words (PyStr.collapse s)), (collapse_words s).
  rewrite split_ws_join; [done|]. by apply split_ws_go_words.
Qed.

(** X23.  The normalizer depends on a location only through its
    whitespace-collapsed form: a location and its collapsed form get the
    same answer, whatever the store, the blacklist and the tolerance. *)
Theorem normalize_collapsed (db : Shelf) (location : str)
    (blacklist : _BlackListT) (tolerance : Z) :
  PyStr.collapse (PyStr.collapse location) = PyStr.collapse location
  ∧ _normalize_location db (PyStr.collapse location) blacklist tolerance
    = _normalize_location db location blacklist tolerance.
Proof.
  split; [apply collapse_idem|].
  unfold _normalize_location.
  fold (PyStr.collapse (PyStr.collapse location)). fold (PyStr.collapse location).
  by rewrite collapse_idem.
Qed.

End locations.

(** ** The blacklist file *)

Lemma compile_each_patterns {Pattern PatternError : Type}
    (compile : str → PatternError + Pattern) (pats : str) :
  ∀ compiled,
    compile_each compile pats = inr compiled →
    length compiled = length pats
    ∧ Forall (fun pat => ∃ c, compile [c] = inr pat) compiled.
Proof.
  induction pats as [|c pats IH]; intros compiled; cbn [compile_each].
  - intros [= <-]. split; [done | constructor].
  - destruct (compile [c]) as [e|pat] eqn:Hc; [done|].
    destruct (compile_each compile pats) as [e|rest]; [done|].
    intros [= <-]. destruct (IH rest eq_refl) as [Hlen Hall].
    split; [cbn; by rewrite Hlen|]. constructor; [by exists c | done].
Qed.

(** X24.  [get_blacklist] gives the empty blacklist for a missing file.
    For a file it compiles one pattern per character of the text left
    once the separators are removed: every pattern of the result comes
    from a single character, and there are as many patterns as
    characters. *)
Theorem get_blacklist_patterns {Pattern PatternError : Type}
    (compile : str → PatternError + Pattern) (sep : str) :
  get_blacklist compile None sep = inr []
  ∧ (∀ text compiled,
       get_blacklist compile (Some text) sep = inr compiled →
       ∃ parts,
         PyStr.split text sep = Ok parts
         ∧ length compiled = length (PyStr.join "" parts)
         ∧ Forall (fun pat => ∃ c, compile [c] = inr pat) compiled).
Proof.
  split; [done|]. intros text compiled. unfold get_blacklist.
  destruct (PyStr.split text sep) as [parts|e]; [|done].
  intros H. exists parts. split; [done|]. by apply compile_each_patterns.
Qed.

Lemma get_blacklist_patterns_witness :
  ∃ parts,
    PyStr.split "ab----c" "----" = Ok parts
    ∧ length ["a"; "b"; "c"] = length (PyStr.join "" parts)
    ∧ Forall (fun pat : str =>
                ∃ c, (inr [c] : Empty_set + str) = inr pat)
             ["a"; "b"; "c"].
Proof.
  destruct (get_blacklist_patterns (fun s => inr s : Empty_set + str) "----")
    as [_ H].
  apply (H "ab----c" ["a"; "b"; "c"]). reflexivity.
Defined.
